(** * Taichung traffic-accident hotspot map: [traffic_map.py]

    The script is a Streamlit page.  Each interaction re-executes it from
    top to bottom: it obtains the table of simulated hotspots from the
    memoized [load_data], draws one circle per hotspot on a folium map and,
    when the button was pressed with two non-empty addresses, geocodes
    both, draws the straight line between them and reports the hotspots
    inside the padded bounding box of the two coordinates.

    Coordinates are IEEE binary64 numbers, as Python's [float]: they are
    embedded as Rocq's primitive floats, so every arithmetic operation and
    comparison below rounds and compares exactly as the script does.
    Incident counts are Python integers ([Z]); labels are byte strings
    holding the UTF-8 text of the source.

    The three services the script calls are outside the repository and are
    embedded as follows.
    - [random] (CPython's [Lib/random.py]): [uniform] and [choices] are
      written out over [random()], whose successive results are read from a
      tape; the documented range of [random()] is [0.0 <= r < 1.0].
    - [geopy]'s Nominatim client: an oracle giving the service's response to
      the n-th request.
    - Streamlit's [st.cache_data]: a memo entry kept by the server between
      executions of the script; every call of the decorated function hands
      the execution its own copy of the table, built by the function's body
      when the entry is empty and read from the entry otherwise.

    The sidebar legend, the final [st_folium] call and the preview of the
    table draw constant text or the table itself and are not embedded; of
    the bar chart, the counts it draws are. *)

From Stdlib Require Import ZArith List String Ascii Bool Lia Floats DecimalString.
From Stdlib Require Import DecimalNat.
Import ListNotations.

Set Warnings "-inexact-float".

Local Open Scope string_scope.
Local Open Scope list_scope.

(** ** Python built-ins used by the script *)

Module Py.

(** [min(a, b)]: the first argument is kept unless the second is smaller. *)
Definition min (a b : float) : float := if (b <? a)%float then b else a.

(** [max(a, b)]: the first argument is kept unless the second is larger. *)
Definition max (a b : float) : float := if (a <? b)%float then b else a.

(** [str(n)] for an integer, as an f-string prints it. *)
Definition str_int (n : Z) : string := NilEmpty.string_of_int (Z.to_int n).

(** [len(x)] printed by an f-string. *)
Definition str_len (n : nat) : string := NilEmpty.string_of_uint (Nat.to_uint n).

(** Truth value of a string: empty strings are false. *)
Definition truthy (s : string) : bool := negb (s =? "").

Definition newline : string := String (ascii_of_nat 10) EmptyString.

End Py.

(** ** The [random] module *)

Module Random.

(** The generator: [tape] lists the results of successive calls of
    [random()], [pos] counts the calls made so far. *)
Record state := { tape : nat -> float; pos : nat }.

Definition random (g : state) : float * state :=
  (tape g (pos g), {| tape := tape g; pos := S (pos g) |}).

(** [uniform(a, b)] is [a + (b - a) * random()]. *)
Definition uniform (a b : float) (g : state) : float * state :=
  let (r, g') := random g in ((a + (b - a) * r)%float, g').

(** [itertools.accumulate]: running sums, the first element unchanged. *)
Fixpoint accumulate_from (acc : float) (ws : list float) : list float :=
  match ws with
  | [] => []
  | w :: ws' => let t := (acc + w)%float in t :: accumulate_from t ws'
  end.

Definition accumulate (ws : list float) : list float :=
  match ws with
  | [] => []
  | w :: ws' => w :: accumulate_from w ws'
  end.

(** [bisect.bisect_right(a, x, lo, hi)]:
    [while lo < hi: mid = (lo + hi) // 2;
       if x < a[mid]: hi = mid  else: lo = mid + 1].
    The interval shrinks at every turn, so [hi - lo] turns are enough. *)
Fixpoint bisect_loop (fuel : nat) (a : list float) (x : float) (lo hi : nat) : nat :=
  match fuel with
  | O => lo
  | S fuel' =>
      if (lo <? hi)%nat then
        let mid := ((lo + hi) / 2)%nat in
        if (x <? nth mid a nan)%float
        then bisect_loop fuel' a x lo mid
        else bisect_loop fuel' a x (S mid) hi
      else lo
  end.

Definition bisect (a : list float) (x : float) (lo hi : nat) : nat :=
  bisect_loop (hi - lo) a x lo hi.

Definition isfinite (x : float) : bool := negb (is_nan x || is_infinity x).

(** [choices(population, weights=weights)] with the default [k = 1].
    [None] stands for the exceptions it raises: a number of weights that
    differs from the population's, an empty population, a total that is
    not positive or not finite.  [random()] is called after these tests. *)
Definition choices (population : list Z) (weights : list float) (g : state)
  : option (list Z) * state :=
  let n := List.length population in
  let cum_weights := accumulate weights in
  if negb (List.length cum_weights =? n)%nat then (None, g)
  else match rev cum_weights with
       | [] => (None, g)
       | last :: _ =>
           let total := (last + 0.0)%float in
           if (total <=? 0.0)%float then (None, g)
           else if negb (isfinite total) then (None, g)
           else
             let hi := (n - 1)%nat in
             let (r, g') := random g in
             match nth_error population (bisect cum_weights (r * total)%float 0 hi) with
             | Some c => (Some [c], g')
             | None => (None, g')
             end
       end.

End Random.

(** ** The table of hotspots *)

(** One line of the data frame, with the columns
    [['lat', 'lon', 'count', 'color', 'risk']]. *)
Record row := mkrow {
  lat : float;
  lon : float;
  count : Z;
  color : string;
  risk : string
}.

Definition table := list row.

Definition base_lat : float := 24.1477%float.
Definition base_lon : float := 120.6733%float.

(** The colour and risk label of a count: the [if]/[elif]/[else] of
    [load_data]. *)
Definition classify (count : Z) : string * string :=
  if (count >=? 5)%Z then ("red", "高危險 (5次以上)")
  else if (count >=? 2)%Z then ("orange", "注意 (2-4次)")
  else ("green", "曾經發生 (1次)").

(** The body of [for _ in range(100)], run [n] times on the list [data].
    [None] is an exception of [choices] or of the subscript [[0]]. *)
Fixpoint load_data_loop (n : nat) (data : table) (g : Random.state)
  : option table * Random.state :=
  match n with
  | O => (Some data, g)
  | S n' =>
      let (u, g1) := Random.uniform (-0.05)%float 0.05%float g in
      let lat := (base_lat + u)%float in
      let (v, g2) := Random.uniform (-0.05)%float 0.05%float g1 in
      let lon := (base_lon + v)%float in
      match Random.choices [1; 3; 6]%Z [0.5; 0.3; 0.2]%float g2 with
      | (Some (count :: _), g3) =>
          let (color, risk) := classify count in
          load_data_loop n' (data ++ [mkrow lat lon count color risk]) g3
      | (_, g3) => (None, g3)
      end
  end.

(** The undecorated [load_data]. *)
Definition load_data (g : Random.state) : option table * Random.state :=
  load_data_loop 100 [] g.

(** ** The proximity filter and the report *)

Definition coords := (float * float)%type.

(** [Series.between(left, right)], both ends included:
    [(self >= left) & (self <= right)]. *)
Definition between (x left right : float) : bool :=
  ((left <=? x) && (x <=? right))%float.

(** The selection of the rows near the path (step 3 of the handler). *)
Definition nearby_accidents (df_accidents : table) (start_coords end_coords : coords)
  : table :=
  let min_lat := Py.min (fst start_coords) (fst end_coords) in
  let max_lat := Py.max (fst start_coords) (fst end_coords) in
  let min_lon := Py.min (snd start_coords) (snd end_coords) in
  let max_lon := Py.max (snd start_coords) (snd end_coords) in
  filter (fun r =>
            between (lat r) (min_lat - 0.01)%float (max_lat + 0.01)%float
            && between (lon r) (min_lon - 0.01)%float (max_lon + 0.01)%float)
         df_accidents.

(** [len(nearby_accidents[nearby_accidents['count'] >= 5])]. *)
Definition high_risk_count (nearby : table) : nat :=
  List.length (filter (fun r => (count r >=? 5)%Z) nearby).

(** ** The geocoding service *)

Module Nominatim.

(** What one call of [geolocator.geocode] can do. *)
Inductive response :=
| Location (latitude longitude : float)
| NoResult                       (* the call returns [None] *)
| TimedOut                       (* the call raises [GeocoderTimedOut] *)
| Failure.                       (* the call raises another exception *)

(** The service answers the n-th request of the process with
    [service n query]; [served] counts the requests made so far. *)
Record state := { service : nat -> string -> response; served : nat }.

Definition geocode (query : string) (s : state) : response * state :=
  (service s (served s) query, {| service := service s; served := S (served s) |}).

End Nominatim.

(** ** The page and the state of one execution *)

Inductive layer :=
| CircleMarker (location : coords) (radius : Z) (color fill_color popup : string)
| Marker (location : coords) (icon_color icon tooltip : string)
| PolyLine (locations : list coords) (color : string) (weight : Z) (dash_array : string).

Inductive alert :=
| Success (body : string)
| Warning (body : string)
| Error (body : string).

(** Calls of the decorated [load_data] and of the geocoder, in the order an
    execution makes them.  Each call of [load_data] gives the execution its
    table: [LoadData true] when it is read from the memo entry,
    [LoadData false] when the function's body has built it. *)
Inductive event :=
| LoadData (cached : bool)
| Geocode (query : string).

(** What the server keeps from one execution of the script to the next. *)
Record server := {
  rng : Random.state;
  cache : option table;
  nominatim : Nominatim.state
}.

(** What one execution builds: the layers added to the map [m], the bounds
    given to [m.fit_bounds], the alert boxes, and the log of its calls. *)
Record page := {
  m : list layer;
  bounds : option (list coords);
  alerts : list alert;
  log : list event
}.

Definition blank : page := {| m := []; bounds := None; alerts := []; log := [] |}.

Definition state := (server * page)%type.

(** Computations of the script: they change the state and either return a
    value or raise an exception that nothing catches ([None]); the changes
    made before the exception stay. *)
Definition M (A : Type) : Type := state -> option A * state.

Definition ret {A} (a : A) : M A := fun s => (Some a, s).

Definition bind {A B} (c : M A) (k : A -> M B) : M B :=
  fun s => match c s with
           | (Some a, s') => k a s'
           | (None, s') => (None, s')
           end.

Notation "x <- c ;; k" := (bind c (fun x => k))
  (at level 61, c at next level, right associativity).
Notation "c ;;; k" := (bind c (fun _ => k))
  (at level 61, right associativity).

Definition add_to (l : layer) : M unit :=
  fun '(srv, p) =>
    (Some tt, (srv, {| m := m p ++ [l]; bounds := bounds p; alerts := alerts p; log := log p |})).

Definition fit_bounds (b : list coords) : M unit :=
  fun '(srv, p) =>
    (Some tt, (srv, {| m := m p; bounds := Some b; alerts := alerts p; log := log p |})).

Definition show (a : alert) : M unit :=
  fun '(srv, p) =>
    (Some tt, (srv, {| m := m p; bounds := bounds p; alerts := alerts p ++ [a]; log := log p |})).

(** [@st.cache_data def load_data()]: the memo entry answers when it is
    filled; otherwise the body runs on the process's generator and its
    result fills the entry.  An exception of the body leaves it empty.
    Tables are values here, so the copy a call returns is the table. *)
Definition cached_load_data : M table :=
  fun '(srv, p) =>
    let logged hit :=
      {| m := m p; bounds := bounds p; alerts := alerts p;
         log := log p ++ [LoadData hit] |} in
    match cache srv with
    | Some df => (Some df, (srv, logged true))
    | None =>
        let (res, g) := load_data (rng srv) in
        (res, ({| rng := g; cache := res; nominatim := nominatim srv |}, logged false))
    end.

(** [get_coordinates(address)]: the query is the address after the city's
    name; a result gives its coordinates, no result and a time-out give
    [None], any other exception escapes. *)
Definition get_coordinates (address : string) : M (option coords) :=
  fun '(srv, p) =>
    let query := ("台中市 " ++ address)%string in
    let (r, n) := Nominatim.geocode query (nominatim srv) in
    let s' := ({| rng := rng srv; cache := cache srv; nominatim := n |},
               {| m := m p; bounds := bounds p; alerts := alerts p;
                  log := log p ++ [Geocode query] |}) in
    match r with
    | Nominatim.Location latitude longitude => (Some (Some (latitude, longitude)), s')
    | Nominatim.NoResult => (Some None, s')
    | Nominatim.TimedOut => (Some None, s')
    | Nominatim.Failure => (None, s')
    end.

(** The value of the widgets of the sidebar in one execution. *)
Record inputs := {
  start_location : string;
  end_location : string;
  run_btn : bool
}.

(** The circle of one row of the table. *)
Definition circle_of (r : row) : layer :=
  CircleMarker (lat r, lon r)
               (if (color r =? "green")%string then 5 else 8)
               (color r) (color r)
               ("事故次數: " ++ Py.str_int (count r) ++ Py.newline
                  ++ "等級: " ++ risk r)%string.

Fixpoint mark_all (rows : table) : M unit :=
  match rows with
  | [] => ret tt
  | r :: rows' => add_to (circle_of r) ;;; mark_all rows'
  end.

Definition route_message (start_location end_location : string) : string :=
  ("已規劃從 " ++ start_location ++ " 到 " ++ end_location ++ " 的路徑參考。")%string.

Definition report (total high : nat) : string :=
  ("⚠️ 路徑周邊範圍內共有 " ++ Py.str_len total ++ " 個事故點，其中包含 "
     ++ Py.str_len high ++ " 個高風險(紅色)熱點，請小心駕駛！")%string.

Definition not_found : string :=
  "找不到地點，請嘗試輸入更完整的名稱 (例如：台中火車站、逢甲大學)。".

(** The branch taken when both addresses have coordinates. *)
Definition draw_path (i : inputs) (df_accidents : table)
           (start_coords end_coords : coords) : M unit :=
  add_to (Marker start_coords "blue" "play" "起點") ;;;
  add_to (Marker end_coords "black" "stop" "終點") ;;;
  add_to (PolyLine [start_coords; end_coords] "blue" 2 "5") ;;;
  fit_bounds [start_coords; end_coords] ;;;
  show (Success (route_message (start_location i) (end_location i))) ;;;
  let nearby := nearby_accidents df_accidents start_coords end_coords in
  match nearby with
  | [] => ret tt
  | _ :: _ => show (Warning (report (List.length nearby) (high_risk_count nearby)))
  end.

(** The handler of the button: [if run_btn and start_location and
    end_location]. *)
Definition query (i : inputs) (df_accidents : table) : M unit :=
  if run_btn i && Py.truthy (start_location i) && Py.truthy (end_location i) then
    start_coords <- get_coordinates (start_location i) ;;
    end_coords <- get_coordinates (end_location i) ;;
    match start_coords, end_coords with
    | Some s, Some e => draw_path i df_accidents s e
    | _, _ => show (Error not_found)
    end
  else ret tt.

(** The whole script. *)
Definition script (i : inputs) : M unit :=
  df_accidents <- cached_load_data ;;
  mark_all df_accidents ;;;
  query i df_accidents.

(** One execution: the script runs on a blank page. *)
Definition execute (i : inputs) (srv : server) : option unit * state :=
  script i (srv, blank).

(** ** The chart *)

(** [Series.value_counts()]: the number of occurrences of each value; a
    value that does not occur has no entry, counted 0 here.  The order of
    the entries is left out. *)
Definition value_counts (values : list string) (v : string) : nat :=
  count_occ string_dec values v.

(** [df_accidents['risk'].value_counts()], the bars of the chart. *)
Definition risk_counts (df_accidents : table) : string -> nat :=
  value_counts (map risk df_accidents).

(** * Definitions used by the statements and the proofs *)

(** ** Reading aids *)

(** Order of binary64 numbers as the script tests it. *)
Definition fle (a b : float) : Prop := (a <=? b)%float = true.
Definition flt (a b : float) : Prop := (a <? b)%float = true.

(** The count [choices] picks when [random()] returns [r]: the cumulative
    weights are 0.5, 0.5 + 0.3 and 0.5 + 0.3 + 0.2, and their total is the
    last one plus 0.0, that is 1.0. *)
Definition count_of (r : float) : Z :=
  nth (Random.bisect (Random.accumulate [0.5; 0.3; 0.2]%float) (r * (1.0 + 0.0))%float 0 2)
      [1; 3; 6]%Z 0%Z.

(** The row one turn of the loop builds from three results of [random()]. *)
Definition point (r1 r2 r3 : float) : row :=
  let c := count_of r3 in
  mkrow (base_lat + (-0.05 + (0.05 - -0.05) * r1))%float
        (base_lon + (-0.05 + (0.05 - -0.05) * r2))%float
        c (fst (classify c)) (snd (classify c)).

(** The rows [n] turns build when the tape is read from position [k]. *)
Fixpoint points (tp : nat -> float) (k n : nat) : table :=
  match n with
  | O => []
  | S n' => point (tp k) (tp (S k)) (tp (S (S k))) :: points tp (3 + k) n'
  end.

Definition advance (g : Random.state) (d : nat) : Random.state :=
  {| Random.tape := Random.tape g; Random.pos := d + Random.pos g |}.

(** A table [load_data] can return. *)
Definition generated (df : table) : Prop :=
  exists g, fst (load_data g) = Some df.

(** Every result of [random()] on the tape is in its documented range. *)
Definition unit_interval (tp : nat -> float) : Prop :=
  forall k, fle 0 (tp k) /\ flt (tp k) 1.

(** The range of the coordinates: 0.05 degree around the base point. *)
Definition in_range (r : row) : Prop :=
  (fle (base_lat - 0.05) (lat r) /\ fle (lat r) (base_lat + 0.05))
  /\ (fle (base_lon - 0.05) (lon r) /\ fle (lon r) (base_lon + 0.05)).

Definition high_label : string := "高危險 (5次以上)".
Definition medium_label : string := "注意 (2-4次)".
Definition low_label : string := "曾經發生 (1次)".

(** The rectangle spanning two coordinates, each side moved outwards by the
    margin: the words of the glossary, to compare with the selection. *)
Record box := { south : float; north : float; west : float; east : float }.

Definition margin : float := 0.01%float.

Definition padded_box (start_coords end_coords : coords) : box :=
  {| south := (Py.min (fst start_coords) (fst end_coords) - margin)%float;
     north := (Py.max (fst start_coords) (fst end_coords) + margin)%float;
     west := (Py.min (snd start_coords) (snd end_coords) - margin)%float;
     east := (Py.max (snd start_coords) (snd end_coords) + margin)%float |}.

Definition inside (b : box) (r : row) : Prop :=
  (fle (south b) (lat r) /\ fle (lat r) (north b))
  /\ (fle (west b) (lon r) /\ fle (lon r) (east b)).

(** The rectangle in the glossary's own words, to compare with the bounds
    the script computes.  [lo] is the smaller of two numbers, [hi] the
    larger: one of the two, and not above, respectively not below, either. *)
Definition smaller (lo a b : float) : Prop :=
  (lo = a \/ lo = b) /\ fle lo a /\ fle lo b.

Definition larger (hi a b : float) : Prop :=
  (hi = a \/ hi = b) /\ fle a hi /\ fle b hi.

(** [b] is the rectangle spanning the two coordinates. *)
Definition spanning (b : box) (start_coords end_coords : coords) : Prop :=
  smaller (south b) (fst start_coords) (fst end_coords)
  /\ larger (north b) (fst start_coords) (fst end_coords)
  /\ smaller (west b) (snd start_coords) (snd end_coords)
  /\ larger (east b) (snd start_coords) (snd end_coords).

(** The rectangle with each side moved outwards by [c]. *)
Definition expand (b : box) (c : float) : box :=
  {| south := (south b - c)%float; north := (north b + c)%float;
     west := (west b - c)%float; east := (east b + c)%float |}.

(** ** Executions *)

Definition server_of (x : option unit * state) : server := fst (snd x).
Definition page_of (x : option unit * state) : page := snd (snd x).

Definition is_polyline (l : layer) : bool :=
  match l with PolyLine _ _ _ _ => true | _ => false end.

Definition is_load (e : event) : bool :=
  match e with LoadData _ => true | Geocode _ => false end.

(** The queries sent to the geocoder, in order. *)
Definition geocodes (l : list event) : list string :=
  flat_map (fun e => match e with Geocode q => [q] | LoadData _ => [] end) l.

(** The button was pressed with two addresses typed in. *)
Definition pressed (i : inputs) : Prop :=
  run_btn i = true /\ start_location i <> "" /\ end_location i <> "".

Definition query_of (address : string) : string := ("台中市 " ++ address)%string.

(** The service's answer to the [k]-th request from now on. *)
Definition answer (srv : server) (k : nat) (address : string) : Nominatim.response :=
  Nominatim.service (nominatim srv) (k + Nominatim.served (nominatim srv)) (query_of address).

Definition found (r : Nominatim.response) : Prop :=
  exists latitude longitude, r = Nominatim.Location latitude longitude.

(** The call returned nothing or timed out. *)
Definition failed (r : Nominatim.response) : Prop :=
  r = Nominatim.NoResult \/ r = Nominatim.TimedOut.

(** The table an execution starting on [srv] works on, and the server
    after its call of [load_data]. *)
Definition table_of (srv : server) : table :=
  match cache srv with
  | Some df => df
  | None => points (Random.tape (rng srv)) (Random.pos (rng srv)) 100
  end.

Definition after_load (srv : server) : server :=
  match cache srv with
  | Some _ => srv
  | None => {| rng := advance (rng srv) 300; cache := Some (table_of srv);
               nominatim := nominatim srv |}
  end.

Definition filled (c : option table) : bool :=
  match c with Some _ => true | None => false end.

Definition asked (srv : server) (k : nat) : server :=
  {| rng := rng srv; cache := cache srv;
     nominatim := {| Nominatim.service := Nominatim.service (nominatim srv);
                     Nominatim.served := k + Nominatim.served (nominatim srv) |} |}.

(** The server states after each of a list of executions. *)
Fixpoint states (later : list inputs) (srv : server) : list server :=
  match later with
  | [] => []
  | i :: later' =>
      let srv' := fst (snd (execute i srv)) in srv' :: states later' srv'
  end.

(** The states a server process goes through: it starts with an empty memo
    entry and a generator reading the tape [tp], and runs executions. *)
Inductive reachable (tp : nat -> float) : server -> Prop :=
| reach_start (k : nat) (n : Nominatim.state) :
    reachable tp {| rng := {| Random.tape := tp; Random.pos := k |};
                    cache := None; nominatim := n |}
| reach_execute (i : inputs) (srv : server) :
    reachable tp srv -> reachable tp (server_of (execute i srv)).

(** ** Samples *)

Definition sample_tape (i : nat) : float :=
  (of_uint63 (Uint63.of_Z (Z.of_nat (i * 37 mod 64))) / 64)%float.

Definition sample_rng : Random.state := {| Random.tape := sample_tape; Random.pos := 0 |}.

Definition sample_table : table :=
  Eval vm_compute in
    match fst (load_data sample_rng) with Some df => df | None => [] end.

Definition sample_inputs : inputs :=
  {| start_location := "台中火車站"; end_location := "逢甲大學"; run_btn := true |}.

(** A service that places the first address at (24.13, 120.68) and the
    second at (24.18, 120.64), among the hotspots. *)
Definition central_service (n : nat) (q : string) : Nominatim.response :=
  if (n =? 0)%nat then Nominatim.Location 24.13 120.68 else Nominatim.Location 24.18 120.64.


(** A service whose first answer is a time-out. *)
Definition slow_service (n : nat) (q : string) : Nominatim.response :=
  if (n =? 0)%nat then Nominatim.TimedOut else Nominatim.Location 24.18 120.64.

Definition boot (service : nat -> string -> Nominatim.response) : server :=
  {| rng := sample_rng; cache := None;
     nominatim := {| Nominatim.service := service; Nominatim.served := 0 |} |}.

(** ** Binary64 arithmetic

    The primitive operations are specified by the operations of
    [SpecFloat] on sign, mantissa and exponent ([FloatAxioms]).  The
    definitions below describe what these compute. *)

Section Binary64Definitions.
Local Open Scope Z_scope.

(** The exponent of the format for a number below [2 ^ e]. *)
Definition fexp64 (e : Z) : Z := Z.max (e - 53) (-1074).

(** The record [mrs] is the mantissa [m] shifted right [n] times: it holds
    the quotient, the last bit that left, and whether a bit below was set. *)
Definition shr_inv (m n : Z) (mrs : shr_record) : Prop :=
  0 <= shr_m mrs /\
  exists t, 0 <= t < 2 ^ n
            /\ (shr_s mrs = true <-> 0 < t)
            /\ 2 * m = shr_m mrs * 2 ^ (n + 1) + (if shr_r mrs then 2 ^ n else 0) + t.

(** [q] is [m / 2 ^ n] rounded to the nearest integer, ties to even. *)
Definition nearest_even (m n q : Z) : Prop :=
  (2 * q - 1) * 2 ^ n <= 2 * m <= (2 * q + 1) * 2 ^ n
  /\ (2 * m = (2 * q + 1) * 2 ^ n -> Z.even q = true)
  /\ (2 * m = (2 * q - 1) * 2 ^ n -> Z.even q = true).

(** The number a rounding returns, from its sign, mantissa and exponent. *)
Definition pack (s : bool) (q E : Z) : spec_float :=
  match q with
  | Z0 => S754_zero s
  | Zpos m => if E <=? 971 then S754_finite s m E else S754_infinity s
  | Zneg _ => S754_nan
  end.

(** A mantissa that reached [2 ^ 53] is brought back to 53 bits. *)
Definition renorm (q E : Z) : Z * Z :=
  if q =? 2 ^ 53 then (2 ^ 52, E + 1) else (q, E).

(** Order of two results of a rounding, read on mantissa and exponent. *)
Definition ordered (p1 p2 : Z * Z) : Prop :=
  0 <= fst p1 /\ 0 <= fst p2 /\
  (fst p1 = 0 \/
   (0 < fst p2 /\ (snd p1 < snd p2 \/ (snd p1 = snd p2 /\ fst p1 <= fst p2)))).

(** Sign of a number that is not a NaN. *)
Definition nonneg_sf (x : spec_float) : Prop :=
  match x with
  | S754_zero _ | S754_finite false _ _ | S754_infinity false => True
  | _ => False
  end.

Definition nonpos_sf (x : spec_float) : Prop :=
  match x with
  | S754_zero _ | S754_finite true _ _ | S754_infinity true => True
  | _ => False
  end.

(** Zeros and finite numbers. *)
Definition finite_sf (x : spec_float) : Prop :=
  match x with
  | S754_zero _ | S754_finite _ _ _ => True
  | _ => False
  end.

Definition signed (s : bool) (m : positive) : Z := if s then Zneg m else Zpos m.

(** The value of a finite number, in units of [2 ^ (- K)]. *)
Definition sval (K : Z) (x : spec_float) : Z :=
  match x with
  | S754_finite s m e => signed s m * 2 ^ (e + K)
  | _ => 0
  end.

(** Neither a NaN nor an infinity. *)
Definition finite (x : float) : Prop := finite_sf (Prim2SF x).

(** Finite and not a zero. *)
Definition finite_nonzero (x : float) : Prop :=
  match Prim2SF x with S754_finite _ _ _ => True | _ => False end.

(** Not a NaN. *)
Definition ordinary (x : float) : Prop := Prim2SF x <> S754_nan.

(** Positive and normal. *)
Definition normal_positive (x : float) : Prop :=
  match Prim2SF x with
  | S754_finite false m _ => 2 ^ 52 <= Zpos m
  | _ => False
  end.

End Binary64Definitions.

(** ** Further reading aids *)


(** The test of the handler: [run_btn and start_location and end_location]. *)
Definition wanted (i : inputs) : bool :=
  run_btn i && Py.truthy (start_location i) && Py.truthy (end_location i).

(** The layers of a drawn path. *)
Definition path_layers (start_coords end_coords : coords) : list layer :=
  [Marker start_coords "blue" "play" "起點";
   Marker end_coords "black" "stop" "終點";
   PolyLine [start_coords; end_coords] "blue" 2 "5"].

(** The call raised an exception that [get_coordinates] does not catch. *)
Definition raised (r : Nominatim.response) : bool :=
  match r with Nominatim.Failure => true | _ => false end.

(** A service that answers the first request and fails at the second. *)
Definition failing_service (n : nat) (q : string) : Nominatim.response :=
  if (n =? 0)%nat then Nominatim.Location 24.13 120.68 else Nominatim.Failure.

(** A service whose first answer is a time-out and whose second call
    raises another exception of the geocoder. *)
Definition unavailable_service (n : nat) (q : string) : Nominatim.response :=
  if (n =? 0)%nat then Nominatim.TimedOut else Nominatim.Failure.

(** The page an execution has built when its handler starts: the circles
    of the table [df], and the call of [load_data] in the log. *)
Definition drawn (df : table) (cached : bool) : page :=
  {| m := map circle_of df; bounds := None; alerts := []; log := [LoadData cached] |}.

(** The button pressed with no address of arrival. *)
Definition idle_inputs : inputs :=
  {| start_location := "台中火車站"; end_location := ""; run_btn := true |}.

(** The value of a decimal digit. *)
Definition digit_of (c : ascii) : option nat :=
  let n := nat_of_ascii c in
  if (48 <=? n)%nat && (n <=? 57)%nat then Some (n - 48) else None.

(** The numbers written in a text, from left to right; [cur] is the number
    whose digits are being read. *)
Fixpoint numbers_from (s : string) (cur : option nat) : list nat :=
  match s with
  | EmptyString => match cur with Some n => [n] | None => [] end
  | String c s' =>
      match digit_of c with
      | Some d =>
          numbers_from s' (Some (10 * match cur with Some n => n | None => 0 end + d))
      | None =>
          match cur with
          | Some n => n :: numbers_from s' None
          | None => numbers_from s' None
          end
      end
  end.

Definition numbers_in (s : string) : list nat := numbers_from s None.

Fixpoint no_digit (s : string) : bool :=
  match s with
  | EmptyString => true
  | String c s' => match digit_of c with Some _ => false | None => no_digit s' end
  end.

Ltac read_digit :=
  match goal with
  | |- context [digit_of ?c] =>
      let v := eval vm_compute in (digit_of c) in
      change (digit_of c) with v; cbv beta iota
  end.

(** * Properties *)

(** ** Binary64 rounding *)

Section Binary64.
Local Open Scope Z_scope.

Lemma fexp64_eq e : SpecFloat.fexp prec emax e = fexp64 e.
Proof. reflexivity. Qed.

Lemma pow2_pos (a : Z) : 0 <= a -> 0 < 2 ^ a.
Proof. intros; apply Z.pow_pos_nonneg; lia. Qed.

Lemma pow2_add (a b : Z) : 0 <= a -> 0 <= b -> 2 ^ (a + b) = 2 ^ a * 2 ^ b.
Proof. intros; apply Z.pow_add_r; lia. Qed.

Lemma pow2_succ (a : Z) : 0 <= a -> 2 ^ (a + 1) = 2 * 2 ^ a.
Proof. intros. rewrite pow2_add by lia. change (2 ^ 1) with 2. lia. Qed.

Lemma pow2_le (a b : Z) : 0 <= a <= b -> 2 ^ a <= 2 ^ b.
Proof. intros; apply Z.pow_le_mono_r; lia. Qed.

Lemma pow2_lt_inv (a b : Z) : 0 <= a -> 0 <= b -> 2 ^ a < 2 ^ b -> a < b.
Proof. intros Ha Hb H. apply (Z.pow_lt_mono_r_iff 2); lia. Qed.

Lemma digits2_bounds (m : positive) :
  let d := Zpos (digits2_pos m) in 2 ^ (d - 1) <= Zpos m < 2 ^ d.
Proof.
  cbv zeta. induction m as [m IH|m IH|]; cbn [digits2_pos].
  - rewrite Pos2Z.inj_succ. unfold Z.succ.
    replace (Zpos (digits2_pos m) + 1 - 1) with (Zpos (digits2_pos m) - 1 + 1) by lia.
    rewrite !pow2_succ by lia. lia.
  - rewrite Pos2Z.inj_succ. unfold Z.succ.
    replace (Zpos (digits2_pos m) + 1 - 1) with (Zpos (digits2_pos m) - 1 + 1) by lia.
    rewrite !pow2_succ by lia. lia.
  - cbn. lia.
Qed.

Lemma digits2_unique (m : positive) (k : Z) :
  2 ^ (k - 1) <= Zpos m < 2 ^ k -> 1 <= k -> Zpos (digits2_pos m) = k.
Proof.
  intros H Hk. pose proof (digits2_bounds m) as B. cbv zeta in B.
  set (d := Zpos (digits2_pos m)) in *.
  assert (0 < d) by (unfold d; lia).
  destruct (Z.lt_trichotomy d k) as [L|[E|G]]; [|exact E|].
  - assert (2 ^ d <= 2 ^ (k - 1)) by (apply pow2_le; lia). lia.
  - assert (2 ^ k <= 2 ^ (d - 1)) by (apply pow2_le; lia). lia.
Qed.

Lemma shr_inv_start (m : Z) : 0 <= m -> shr_inv m 0 (Build_shr_record m false false).
Proof.
  intros H. split; [exact H|]. exists 0. cbn [shr_m shr_r shr_s].
  change (2 ^ (0 + 1)) with 2. change (2 ^ 0) with 1.
  repeat split; try lia; intros; try discriminate; lia.
Qed.

Lemma shr_inv_step (m n : Z) (mrs : shr_record) :
  0 <= n -> shr_inv m n mrs -> shr_inv m (n + 1) (shr_1 mrs).
Proof.
  intros Hn (Hq & t & Ht & Hs & Hm). destruct mrs as [q r s].
  cbn [shr_m shr_r shr_s] in *.
  pose proof (pow2_pos n Hn) as Pn.
  assert (P1 : 2 ^ (n + 1) = 2 * 2 ^ n) by (apply pow2_succ; lia).
  assert (P2 : 2 ^ (n + 1 + 1) = 4 * 2 ^ n) by (rewrite pow2_succ by lia; lia).
  assert (Hs' : orb r s = true <-> 0 < (if r then 2 ^ n else 0) + t).
  { destruct r; cbn [orb]; [split; intros; [lia|reflexivity]|].
    rewrite Hs. lia. }
  assert (Ht' : 0 <= (if r then 2 ^ n else 0) + t < 2 ^ (n + 1)) by (destruct r; lia).
  unfold shr_inv.
  destruct q as [|[p|p|]|p]; cbn [shr_1 shr_m shr_r shr_s]; try lia.
  all: split; [lia|].
  all: exists ((if r then 2 ^ n else 0) + t).
  all: split; [exact Ht'|]; split; [exact Hs'|].
  all: rewrite P2, ?P1; rewrite P1 in Hm; lia.
Qed.

Lemma shr_inv_iter (m : Z) (p : positive) : forall n mrs,
  0 <= n -> shr_inv m n mrs -> shr_inv m (n + Zpos p) (iter_pos shr_1 p mrs).
Proof.
  induction p as [p IH|p IH|]; intros n mrs Hn H; cbn [iter_pos].
  - replace (n + Zpos p~1) with (n + 1 + Zpos p + Zpos p) by lia.
    apply IH; [lia|]. apply IH; [lia|]. now apply shr_inv_step.
  - replace (n + Zpos p~0) with (n + Zpos p + Zpos p) by lia.
    apply IH; [lia|]. now apply IH.
  - now apply shr_inv_step.
Qed.

(** The rounding of [SpecFloat] rounds to nearest, ties to even. *)
Lemma round_nearest_even_spec (m n : Z) (mrs : shr_record) :
  0 <= n -> shr_inv m n mrs ->
  nearest_even m n (round_nearest_even (shr_m mrs) (loc_of_shr_record mrs))
  /\ shr_m mrs <= round_nearest_even (shr_m mrs) (loc_of_shr_record mrs) <= shr_m mrs + 1.
Proof.
  intros Hn (Hq & t & Ht & Hs & Hm). destruct mrs as [q r s].
  cbn [shr_m shr_r shr_s] in *.
  pose proof (pow2_pos n Hn) as Pn. rewrite pow2_succ in Hm by lia.
  set (P := 2 ^ n) in *.
  assert (Hz : s = false -> t = 0).
  { intros ->. destruct (Z.eq_dec t 0) as [|N]; [assumption|].
    assert (false = true) by (apply Hs; lia). discriminate. }
  assert (Hp : s = true -> 0 < t) by (intros ->; now apply Hs).
  unfold nearest_even. fold P.
  destruct r, s; cbn [loc_of_shr_record round_nearest_even].
  - specialize (Hp eq_refl). repeat split; try lia; intros; exfalso; lia.
  - specialize (Hz eq_refl). subst t. destruct (Z.even q) eqn:Ev.
    + repeat split; try lia; intros; try exact Ev; exfalso; lia.
    + assert (Ev' : Z.even (q + 1) = true) by (rewrite Z.even_add, Ev; reflexivity).
      repeat split; try lia; intros; exact Ev'.
  - specialize (Hp eq_refl). repeat split; try lia; intros; exfalso; lia.
  - specialize (Hz eq_refl). subst t. repeat split; try lia; intros; exfalso; lia.
Qed.

Lemma nearest_even_le_int (m n q c : Z) :
  0 <= n -> nearest_even m n q -> m <= c * 2 ^ n -> q <= c.
Proof.
  intros Hn ((H1 & _) & _) H. pose proof (pow2_pos n Hn) as Pn.
  set (P := 2 ^ n) in *.
  destruct (Z_le_gt_dec q c) as [L|G]; [exact L|exfalso].
  assert ((2 * c + 1) * P <= (2 * q - 1) * P) by (apply Z.mul_le_mono_nonneg_r; lia).
  lia.
Qed.

Lemma nearest_even_ge_int (m n q c : Z) :
  0 <= n -> nearest_even m n q -> c * 2 ^ n <= m -> c <= q.
Proof.
  intros Hn ((_ & H1) & _) H. pose proof (pow2_pos n Hn) as Pn.
  set (P := 2 ^ n) in *.
  destruct (Z_le_gt_dec c q) as [L|G]; [exact L|exfalso].
  assert ((2 * q + 1) * P <= (2 * c - 1) * P) by (apply Z.mul_le_mono_nonneg_r; lia).
  lia.
Qed.

Lemma nearest_even_exact (m q : Z) : nearest_even m 0 q -> q = m.
Proof. intros ((H1 & H2) & _). change (2 ^ 0) with 1 in *. lia. Qed.

(** Rounding to nearest is monotone, also across two denominators. *)
Lemma nearest_even_mono (m1 n1 q1 m2 n2 q2 : Z) :
  0 <= n1 -> 0 <= n2 ->
  nearest_even m1 n1 q1 -> nearest_even m2 n2 q2 ->
  m1 * 2 ^ n2 <= m2 * 2 ^ n1 -> q1 <= q2.
Proof.
  intros Hn1 Hn2 ((L1 & U1) & E1 & O1) ((L2 & U2) & E2 & O2) H.
  pose proof (pow2_pos n1 Hn1) as P1. pose proof (pow2_pos n2 Hn2) as P2.
  set (a := 2 ^ n1) in *. set (b := 2 ^ n2) in *.
  destruct (Z_le_gt_dec q1 q2) as [L|G]; [exact L|exfalso].
  assert (A1 : (2 * q1 - 1) * a * b <= 2 * m1 * b) by (apply Z.mul_le_mono_nonneg_r; lia).
  assert (A2 : 2 * m2 * a <= (2 * q2 + 1) * b * a) by (apply Z.mul_le_mono_nonneg_r; lia).
  assert (A3 : (2 * q2 + 1) * (a * b) <= (2 * q1 - 1) * (a * b))
    by (apply Z.mul_le_mono_nonneg_r; lia).
  assert (B1 : 2 * m1 * b = (2 * q1 - 1) * a * b) by lia.
  assert (B2 : 2 * m2 * a = (2 * q2 + 1) * b * a) by lia.
  assert (B3 : (2 * q2 + 1) * (a * b) = (2 * q1 - 1) * (a * b)) by lia.
  apply Z.mul_reg_r in B1; [|lia]. apply Z.mul_reg_r in B2; [|lia].
  apply Z.mul_reg_r in B3; [|lia].
  specialize (O1 B1). specialize (E2 B2).
  assert (q1 = q2 + 1) by lia. subst q1.
  rewrite Z.even_add, E2 in O1. discriminate O1.
Qed.

Lemma shr_spec (m e n : Z) :
  0 <= m -> 0 <= n ->
  shr_inv m n (fst (shr (Build_shr_record m false false) e n))
  /\ snd (shr (Build_shr_record m false false) e n) = e + n.
Proof.
  intros Hm Hn. destruct n as [|p|p]; cbn [shr fst snd]; try lia.
  - split; [now apply shr_inv_start | lia].
  - split; [|reflexivity]. change (Zpos p) with (0 + Zpos p).
    apply shr_inv_iter; [lia | now apply shr_inv_start].
Qed.

Lemma shr_nop (mrs : shr_record) (e n : Z) : n <= 0 -> shr mrs e n = (mrs, e).
Proof. destruct n; cbn; intros; try reflexivity; lia. Qed.

(** What [binary_round_aux] returns on a mantissa that needs no shift to
    the left. *)
Lemma binary_round_aux_spec (s : bool) (M : positive) (e : Z) :
  let E := fexp64 (Zpos (digits2_pos M) + e) in
  e <= E ->
  exists q, nearest_even (Zpos M) (E - e) q /\ 0 <= q <= 2 ^ 53
            /\ binary_round_aux prec emax s (Zpos M) e loc_Exact
               = pack s (fst (renorm q E)) (snd (renorm q E)).
Proof.
  intros E HE.
  pose proof (digits2_bounds M) as HD. cbv zeta in HD.
  set (d := Zpos (digits2_pos M)) in *.
  assert (Hd : 0 < d) by (unfold d; lia).
  assert (HEmin : -1074 <= E) by (unfold E, fexp64; lia).
  assert (HEd : d + e - 53 <= E) by (unfold E, fexp64; lia).
  unfold binary_round_aux, shr_fexp. cbn [shr_record_of_loc Zdigits2].
  rewrite fexp64_eq. fold d. fold E.
  destruct (shr_spec (Zpos M) e (E - e)) as [Hinv He']; [lia|lia|].
  destruct (shr (Build_shr_record (Zpos M) false false) e (E - e)) as [mrs e'].
  cbn [fst snd] in Hinv, He'. replace e' with E by lia. clear He' e'.
  assert (Hn : 0 <= E - e) by lia.
  destruct (round_nearest_even_spec _ _ _ Hn Hinv) as [Hne Hq].
  set (q := round_nearest_even (shr_m mrs) (loc_of_shr_record mrs)) in *.
  assert (Hq0 : 0 <= q) by (destruct Hinv; lia).
  assert (Hq53 : q <= 2 ^ 53).
  { apply (nearest_even_le_int _ _ _ _ Hn Hne).
    rewrite <- pow2_add by lia.
    assert (2 ^ d <= 2 ^ (53 + (E - e))) by (apply pow2_le; lia). lia. }
  exists q. split; [exact Hne|]. split; [lia|].
  unfold renorm. destruct (Z.eqb_spec q (2 ^ 53)) as [Eq|Nq].
  - rewrite Eq. cbn [fst snd].
    replace (fexp prec emax (Zdigits2 (2 ^ 53) + E) - E) with 1
      by (rewrite fexp64_eq; change (Zdigits2 (2 ^ 53)) with 54; unfold fexp64; lia).
    reflexivity.
  - cbn [fst snd]. rewrite shr_nop.
    + reflexivity.
    + rewrite fexp64_eq. destruct q as [|mq|mq]; cbn [Zdigits2]; unfold fexp64; [lia| |lia].
      pose proof (digits2_bounds mq) as Dq. cbv zeta in Dq.
      assert (Zpos (digits2_pos mq) - 1 < 53).
      { apply pow2_lt_inv; lia. }
      lia.
Qed.

Lemma pack_ordered (p1 p2 : Z * Z) :
  ordered p1 p2 ->
  SFleb (pack false (fst p1) (snd p1)) (pack false (fst p2) (snd p2)) = true
  /\ SFleb (pack true (fst p2) (snd p2)) (pack true (fst p1) (snd p1)) = true.
Proof.
  destruct p1 as [q1 E1], p2 as [q2 E2]. unfold ordered. cbn [fst snd].
  intros (H1 & H2 & H).
  destruct q1 as [|m1|m1]; [| |lia]; (destruct q2 as [|m2|m2]; [| |lia]); cbn [pack].
  - split; reflexivity.
  - destruct (E2 <=? 971); split; reflexivity.
  - exfalso. destruct H as [H|[H _]]; lia.
  - destruct H as [H|[_ H]]; [lia|].
    destruct (Z.leb_spec E1 971), (Z.leb_spec E2 971); unfold SFleb, SFcompare;
      try (split; reflexivity); try (exfalso; lia).
    destruct H as [H|[<- H]].
    + rewrite (proj2 (Z.compare_lt_iff E1 E2) H).
      rewrite (proj2 (Z.compare_gt_iff E2 E1) H). split; reflexivity.
    + rewrite Z.compare_refl. fold (Pos.compare m1 m2). fold (Pos.compare m2 m1).
      rewrite (Pos.compare_antisym m1 m2).
      destruct (Pos.compare_spec m1 m2); cbn; try (split; reflexivity). lia.
Qed.

Lemma fexp64_mono (a b : Z) : a <= b -> fexp64 a <= fexp64 b.
Proof. unfold fexp64; lia. Qed.

(** Two numbers compared at scale [K] compare the same way once aligned
    on a common exponent [E]. *)
Lemma scaled_le_aligned (M1 M2 e1 e2 E K : Z) :
  - K <= e1 -> - K <= e2 -> e1 <= E -> e2 <= E ->
  M1 * 2 ^ (e1 + K) <= M2 * 2 ^ (e2 + K) ->
  M1 * 2 ^ (E - e2) <= M2 * 2 ^ (E - e1).
Proof.
  intros K1 K2 H1 H2 Hle.
  pose proof (pow2_pos (e1 + K) ltac:(lia)) as P1.
  pose proof (pow2_pos (e2 + K) ltac:(lia)) as P2.
  pose proof (pow2_pos (E + K) ltac:(lia)) as P3.
  apply (Z.mul_le_mono_pos_r _ _ (2 ^ (e1 + K) * 2 ^ (e2 + K))); [nia|].
  replace (M1 * 2 ^ (E - e2) * (2 ^ (e1 + K) * 2 ^ (e2 + K)))
    with (M1 * 2 ^ (e1 + K) * 2 ^ (E + K))
    by (replace (E + K) with ((E - e2) + (e2 + K)) by lia;
        rewrite (pow2_add (E - e2)) by lia; ring).
  replace (M2 * 2 ^ (E - e1) * (2 ^ (e1 + K) * 2 ^ (e2 + K)))
    with (M2 * 2 ^ (e2 + K) * 2 ^ (E + K))
    by (replace (E + K) with ((E - e1) + (e1 + K)) by lia;
        rewrite (pow2_add (E - e1)) by lia; ring).
  apply Z.mul_le_mono_nonneg_r; [lia|exact Hle].
Qed.

Lemma renorm_ordered (M1 M2 : positive) (e1 e2 K q1 q2 : Z) :
  let E1 := fexp64 (Zpos (digits2_pos M1) + e1) in
  let E2 := fexp64 (Zpos (digits2_pos M2) + e2) in
  e1 <= E1 -> e2 <= E2 -> - K <= e1 -> - K <= e2 ->
  Zpos M1 * 2 ^ (e1 + K) <= Zpos M2 * 2 ^ (e2 + K) ->
  nearest_even (Zpos M1) (E1 - e1) q1 -> 0 <= q1 <= 2 ^ 53 ->
  nearest_even (Zpos M2) (E2 - e2) q2 -> 0 <= q2 <= 2 ^ 53 ->
  ordered (renorm q1 E1) (renorm q2 E2).
Proof.
  intros E1 E2 H1 H2 K1 K2 Hle N1 B1 N2 B2.
  pose proof (digits2_bounds M1) as D1. pose proof (digits2_bounds M2) as D2.
  cbv zeta in D1, D2.
  set (d1 := Zpos (digits2_pos M1)) in *. set (d2 := Zpos (digits2_pos M2)) in *.
  assert (Hd1 : 0 < d1) by (unfold d1; lia). assert (Hd2 : 0 < d2) by (unfold d2; lia).
  (* the exponents are ordered *)
  assert (Hde : d1 + e1 <= d2 + e2).
  { assert (2 ^ (d1 - 1 + (e1 + K)) < 2 ^ (d2 + (e2 + K))).
    { rewrite (pow2_add (d1 - 1) (e1 + K)), (pow2_add d2 (e2 + K)) by lia.
      pose proof (pow2_pos (e1 + K) ltac:(lia)). pose proof (pow2_pos (e2 + K) ltac:(lia)).
      apply Z.le_lt_trans with (Zpos M1 * 2 ^ (e1 + K)).
      - apply Z.mul_le_mono_nonneg_r; lia.
      - apply Z.le_lt_trans with (Zpos M2 * 2 ^ (e2 + K)); [exact Hle|].
        apply Z.mul_lt_mono_pos_r; lia. }
    assert (d1 - 1 + (e1 + K) < d2 + (e2 + K)) by (apply pow2_lt_inv; lia). lia. }
  assert (HE : E1 <= E2) by (apply fexp64_mono; exact Hde).
  assert (HEmin : -1074 <= E1) by (unfold E1, fexp64; lia).
  (* a normal result has a full mantissa *)
  assert (Hnorm : -1074 < E2 -> 2 ^ 52 <= q2).
  { intros Hn. assert (E2 = d2 + e2 - 53) by (unfold E2, fexp64 in *; lia).
    apply (nearest_even_ge_int (Zpos M2) (E2 - e2)); [lia|exact N2|].
    rewrite <- pow2_add by lia. replace (52 + (E2 - e2)) with (d2 - 1) by lia. lia. }
  assert (P52 : 2 ^ 53 = 2 * 2 ^ 52) by reflexivity.
  assert (Q52 : 0 < 2 ^ 52) by reflexivity.
  unfold ordered, renorm.
  destruct (Z.eqb_spec q1 (2 ^ 53)) as [F1|F1], (Z.eqb_spec q2 (2 ^ 53)) as [F2|F2];
    cbn [fst snd].
  - split; [lia|]. split; [lia|]. right. split; [lia|]. lia.
  - split; [lia|]. split; [lia|]. right.
    destruct (Z.eq_dec E1 E2) as [EE|NE].
    + exfalso. assert (q1 <= q2); [|lia].
      apply (nearest_even_mono (Zpos M1) (E1 - e1) q1 (Zpos M2) (E2 - e2) q2);
        [lia|lia|exact N1|exact N2|].
      rewrite <- EE. apply (scaled_le_aligned _ _ e1 e2 E1 K); lia.
    + assert (2 ^ 52 <= q2) by (apply Hnorm; lia).
      split; [lia|]. destruct (Z.eq_dec (E1 + 1) E2); [right; split; lia | left; lia].
  - split; [lia|]. split; [lia|].
    destruct (Z.eq_dec q1 0) as [Z1|Z1]; [left; exact Z1|right].
    split; [lia|]. left; lia.
  - split; [lia|]. split; [lia|].
    destruct (Z.eq_dec q1 0) as [Z1|Z1]; [left; exact Z1|right].
    destruct (Z.eq_dec E1 E2) as [EE|NE].
    + assert (q1 <= q2).
      { apply (nearest_even_mono (Zpos M1) (E1 - e1) q1 (Zpos M2) (E2 - e2) q2);
          [lia|lia|exact N1|exact N2|].
        rewrite <- EE. apply (scaled_le_aligned _ _ e1 e2 E1 K); lia. }
      split; [lia|]. right. split; [exact EE|lia].
    + assert (2 ^ 52 <= q2) by (apply Hnorm; lia).
      split; [lia|]. left; lia.
Qed.

(** Rounding is monotone, on positive and on negative numbers. *)
Lemma binary_round_aux_mono (M1 M2 : positive) (e1 e2 K : Z) :
  e1 <= fexp64 (Zpos (digits2_pos M1) + e1) ->
  e2 <= fexp64 (Zpos (digits2_pos M2) + e2) ->
  - K <= e1 -> - K <= e2 ->
  Zpos M1 * 2 ^ (e1 + K) <= Zpos M2 * 2 ^ (e2 + K) ->
  SFleb (binary_round_aux prec emax false (Zpos M1) e1 loc_Exact)
        (binary_round_aux prec emax false (Zpos M2) e2 loc_Exact) = true
  /\ SFleb (binary_round_aux prec emax true (Zpos M2) e2 loc_Exact)
           (binary_round_aux prec emax true (Zpos M1) e1 loc_Exact) = true.
Proof.
  intros H1 H2 K1 K2 Hle.
  split.
  - destruct (binary_round_aux_spec false M1 e1 H1) as (q1 & N1 & B1 & ->).
    destruct (binary_round_aux_spec false M2 e2 H2) as (q2 & N2 & B2 & ->).
    apply pack_ordered. eapply renorm_ordered; eauto.
  - destruct (binary_round_aux_spec true M1 e1 H1) as (q1 & N1 & B1 & ->).
    destruct (binary_round_aux_spec true M2 e2 H2) as (q2 & N2 & B2 & ->).
    apply pack_ordered. eapply renorm_ordered; eauto.
Qed.

Lemma SFleb_nonpos_nonneg (x y : spec_float) : nonpos_sf x -> nonneg_sf y -> SFleb x y = true.
Proof.
  destruct x as [sx|[]| |[] mx ex], y as [sy|[]| |[] my ey]; cbn; intros; try tauto.
Qed.

Lemma binary_round_aux_sign (s : bool) (M : positive) (e : Z) :
  e <= fexp64 (Zpos (digits2_pos M) + e) ->
  let x := binary_round_aux prec emax s (Zpos M) e loc_Exact in
  if s then nonpos_sf x else nonneg_sf x.
Proof.
  intros H. cbv zeta.
  destruct (binary_round_aux_spec s M e H) as (q & N & B & ->).
  unfold renorm. destruct (q =? 2 ^ 53); cbn [fst snd].
  - cbn [pack]. change (2 ^ 52) with 4503599627370496. cbn [pack].
    destruct (_ <=? 971), s; exact I.
  - destruct q as [|mq|mq]; [| |lia]; cbn [pack];
      [|destruct (_ <=? 971)]; destruct s; exact I.
Qed.

(** Alignment of a mantissa on a smaller exponent. *)
Lemma iter_xO (m d : positive) : Zpos (Pos.iter xO m d) = Zpos m * 2 ^ Zpos d.
Proof.
  rewrite <- Z.shiftl_mul_pow2 by lia. cbn [Z.shiftl].
  apply (Pos.iter_swap_gen _ _ Zpos xO (Z.mul 2)). reflexivity.
Qed.

Lemma shl_align_spec (m : positive) (e e' : Z) :
  Zpos (fst (shl_align m e e')) = Zpos m * 2 ^ (e - Z.min e e')
  /\ snd (shl_align m e e') = Z.min e e'.
Proof.
  unfold shl_align. destruct (e' - e) as [|p|p] eqn:D; cbn [fst snd].
  - replace (Z.min e e') with e by lia. rewrite Z.sub_diag. change (2 ^ 0) with 1. lia.
  - replace (Z.min e e') with e by lia. rewrite Z.sub_diag. change (2 ^ 0) with 1. lia.
  - replace (Z.min e e') with e' by lia. rewrite iter_xO.
    replace (e - e') with (Zpos p) by lia. lia.
Qed.

Lemma digits2_shift (m mz : positive) (k : Z) :
  0 <= k -> Zpos mz = Zpos m * 2 ^ k ->
  Zpos (digits2_pos mz) = Zpos (digits2_pos m) + k.
Proof.
  intros Hk H. pose proof (digits2_bounds m) as D. cbv zeta in D.
  apply digits2_unique; [|lia]. rewrite H.
  replace (Zpos (digits2_pos m) + k - 1) with (Zpos (digits2_pos m) - 1 + k) by lia.
  rewrite !pow2_add by lia. pose proof (pow2_pos k Hk).
  split; [apply Z.mul_le_mono_nonneg_r | apply Z.mul_lt_mono_pos_r]; lia.
Qed.

Lemma binary_round_as_aux (s : bool) (m : positive) (e : Z) :
  exists mz ez,
    binary_round prec emax s m e = binary_round_aux prec emax s (Zpos mz) ez loc_Exact
    /\ ez <= fexp64 (Zpos (digits2_pos mz) + ez)
    /\ Z.min e (-1074) <= ez <= e
    /\ Zpos mz = Zpos m * 2 ^ (e - ez).
Proof.
  unfold binary_round. rewrite fexp64_eq.
  set (E := fexp64 (Zpos (digits2_pos m) + e)).
  destruct (shl_align_spec m e E) as [Hm He].
  destruct (shl_align m e E) as [mz ez]. cbn [fst snd] in Hm, He.
  exists mz, ez. split; [reflexivity|].
  assert (HE : -1074 <= E) by (unfold E, fexp64; lia).
  assert (Hd : Zpos (digits2_pos mz) = Zpos (digits2_pos m) + (e - ez))
    by (apply digits2_shift; [lia | rewrite <- He in Hm; exact Hm]).
  rewrite Hd. replace (Zpos (digits2_pos m) + (e - ez) + ez) with (Zpos (digits2_pos m) + e) by lia.
  fold E. rewrite <- He in Hm. repeat split; try lia; exact Hm.
Qed.

Lemma scaled_shift (m mz e ez K : Z) :
  - K <= ez -> ez <= e -> mz = m * 2 ^ (e - ez) -> mz * 2 ^ (ez + K) = m * 2 ^ (e + K).
Proof.
  intros H1 H2 ->. replace (e + K) with ((e - ez) + (ez + K)) by lia.
  rewrite (pow2_add (e - ez)) by lia. ring.
Qed.

(** Rounding of signed numbers is monotone. *)
Lemma binary_normalize_mono (z1 z2 e1 e2 K : Z) :
  1074 <= K -> - K <= e1 -> - K <= e2 ->
  z1 * 2 ^ (e1 + K) <= z2 * 2 ^ (e2 + K) ->
  SFleb (binary_normalize prec emax z1 e1 false) (binary_normalize prec emax z2 e2 false) = true.
Proof.
  intros HK K1 K2 Hle.
  pose proof (pow2_pos (e1 + K) ltac:(lia)) as P1.
  pose proof (pow2_pos (e2 + K) ltac:(lia)) as P2.
  assert (S1 : forall s m, exists mz ez,
             binary_round prec emax s m e1 = binary_round_aux prec emax s (Zpos mz) ez loc_Exact
             /\ ez <= fexp64 (Zpos (digits2_pos mz) + ez) /\ - K <= ez
             /\ Zpos mz * 2 ^ (ez + K) = Zpos m * 2 ^ (e1 + K)).
  { intros s m. destruct (binary_round_as_aux s m e1) as (mz & ez & A & B & C & D).
    exists mz, ez. repeat split; try assumption; try lia. apply scaled_shift; lia. }
  assert (S2 : forall s m, exists mz ez,
             binary_round prec emax s m e2 = binary_round_aux prec emax s (Zpos mz) ez loc_Exact
             /\ ez <= fexp64 (Zpos (digits2_pos mz) + ez) /\ - K <= ez
             /\ Zpos mz * 2 ^ (ez + K) = Zpos m * 2 ^ (e2 + K)).
  { intros s m. destruct (binary_round_as_aux s m e2) as (mz & ez & A & B & C & D).
    exists mz, ez. repeat split; try assumption; try lia. apply scaled_shift; lia. }
  destruct z1 as [|m1|m1], z2 as [|m2|m2]; cbn [binary_normalize]; try reflexivity;
    try (exfalso; nia).
  - destruct (S2 false m2) as (mz & ez & -> & B & _).
    apply SFleb_nonpos_nonneg; [exact I|]. exact (binary_round_aux_sign false mz ez B).
  - destruct (S1 false m1) as (mz1 & ez1 & -> & B1 & C1 & D1).
    destruct (S2 false m2) as (mz2 & ez2 & -> & B2 & C2 & D2).
    apply (binary_round_aux_mono mz1 mz2 ez1 ez2 K); try assumption. lia.
  - destruct (S1 true m1) as (mz & ez & -> & B & _).
    apply SFleb_nonpos_nonneg; [|exact I]. exact (binary_round_aux_sign true mz ez B).
  - destruct (S1 true m1) as (mz1 & ez1 & -> & B1 & _).
    destruct (S2 false m2) as (mz2 & ez2 & -> & B2 & _).
    apply SFleb_nonpos_nonneg.
    + exact (binary_round_aux_sign true mz1 ez1 B1).
    + exact (binary_round_aux_sign false mz2 ez2 B2).
  - destruct (S1 true m1) as (mz1 & ez1 & -> & B1 & C1 & D1).
    destruct (S2 true m2) as (mz2 & ez2 & -> & B2 & C2 & D2).
    apply (binary_round_aux_mono mz2 mz1 ez2 ez1 K); try assumption.
    rewrite D1, D2. lia.
Qed.

Lemma valid_finite (s : bool) (m : positive) (e : Z) :
  valid_binary (S754_finite s m e) = true ->
  fexp64 (Zpos (digits2_pos m) + e) = e
  /\ -1074 <= e <= 971 /\ Zpos m < 2 ^ 53 /\ (-1074 < e -> 2 ^ 52 <= Zpos m).
Proof.
  cbn [valid_binary]. unfold bounded, canonical_mantissa. rewrite fexp64_eq.
  intros H. apply andb_true_iff in H. destruct H as [H1 H2].
  apply Z.eqb_eq in H1. apply Z.leb_le in H2. change (emax - prec) with 971 in H2.
  pose proof (digits2_bounds m) as D. cbv zeta in D.
  set (d := Zpos (digits2_pos m)) in *.
  assert (0 < d) by (unfold d; lia).
  split; [exact H1|]. unfold fexp64 in H1.
  split; [lia|]. split.
  - assert (2 ^ d <= 2 ^ 53) by (apply pow2_le; lia). lia.
  - intros Hn. assert (d = 53) by lia. replace 52 with (d - 1) by lia. lia.
Qed.

(** The comparison of valid numbers is the comparison of their values. *)
Lemma SFleb_sval (K : Z) (x y : spec_float) :
  1074 <= K ->
  valid_binary x = true -> valid_binary y = true ->
  finite_sf x -> finite_sf y ->
  SFleb x y = true -> sval K x <= sval K y.
Proof.
  intros HK Vx Vy Fx Fy H.
  destruct x as [sx| | |sx mx ex]; try contradiction;
    destruct y as [sy| | |sy my ey]; try contradiction; cbn [sval].
  - lia.
  - destruct (valid_finite _ _ _ Vy) as (_ & Ey & _).
    pose proof (pow2_pos (ey + K) ltac:(lia)).
    destruct sy; [discriminate H|]. cbn [signed]. lia.
  - destruct (valid_finite _ _ _ Vx) as (_ & Ex & _).
    pose proof (pow2_pos (ex + K) ltac:(lia)).
    destruct sx; [|discriminate H]. cbn [signed]. lia.
  - destruct (valid_finite _ _ _ Vx) as (_ & Ex & Mx & Nx).
    destruct (valid_finite _ _ _ Vy) as (_ & Ey & My & Ny).
    pose proof (pow2_pos (ex + K) ltac:(lia)) as Px.
    pose proof (pow2_pos (ey + K) ltac:(lia)) as Py.
    assert (Hlt : forall (m1 m2 : positive) e1 e2,
               -1074 <= e1 -> e1 < e2 -> Zpos m1 < 2 ^ 53 -> 2 ^ 52 <= Zpos m2 ->
               Zpos m1 * 2 ^ (e1 + K) <= Zpos m2 * 2 ^ (e2 + K)).
    { intros m1 m2 e1 e2 A B C D.
      replace (e2 + K) with ((e2 - e1 - 1) + 1 + (e1 + K)) by lia.
      rewrite (pow2_add (e2 - e1 - 1 + 1) (e1 + K)), (pow2_add (e2 - e1 - 1) 1) by lia.
      change (2 ^ 1) with 2.
      pose proof (pow2_pos (e2 - e1 - 1) ltac:(lia)).
      pose proof (pow2_pos (e1 + K) ltac:(lia)).
      assert (P53 : 2 ^ 53 = 2 * 2 ^ 52) by reflexivity.
      apply Z.le_trans with (2 ^ 53 * 2 ^ (e1 + K)).
      - apply Z.mul_le_mono_nonneg_r; lia.
      - rewrite P53. rewrite !Z.mul_assoc. apply Z.mul_le_mono_nonneg_r; [lia|].
        nia. }
    unfold SFleb, SFcompare in H.
    destruct sx, sy; cbn [signed]; try discriminate H; try lia.
    + destruct (Z.compare_spec ex ey) as [E|L|G]; try discriminate H.
      * subst ey. fold (Pos.compare mx my) in H.
        destruct (Pos.compare_spec mx my) as [E'|L'|G']; try discriminate H.
        -- subst. lia.
        -- assert (Zpos my * 2 ^ (ex + K) <= Zpos mx * 2 ^ (ex + K))
             by (apply Z.mul_le_mono_nonneg_r; lia).
           lia.
      * specialize (Hlt my mx ey ex ltac:(lia) G My (Nx ltac:(lia))). lia.
    + destruct (Z.compare_spec ex ey) as [E|L|G]; try discriminate H.
      * subst ey. fold (Pos.compare mx my) in H.
        destruct (Pos.compare_spec mx my) as [E'|L'|G']; try discriminate H.
        -- subst. lia.
        -- apply Z.mul_le_mono_nonneg_r; lia.
      * apply Hlt; lia.
Qed.

(** A valid finite number is its own rounding. *)
Lemma binary_normalize_valid (s : bool) (m : positive) (e : Z) :
  valid_binary (S754_finite s m e) = true ->
  binary_normalize prec emax (signed s m) e false = S754_finite s m e.
Proof.
  intros V. destruct (valid_finite _ _ _ V) as (C & Ee & Mm & _).
  assert (R : binary_round prec emax s m e = S754_finite s m e).
  { unfold binary_round. rewrite fexp64_eq, C.
    unfold shl_align. rewrite Z.sub_diag.
    assert (Pre : e <= fexp64 (Zpos (digits2_pos m) + e)) by lia.
    destruct (binary_round_aux_spec s m e Pre) as (q & N & B & ->).
    rewrite C, Z.sub_diag in N. apply nearest_even_exact in N. subst q.
    unfold renorm. destruct (Z.eqb_spec (Zpos m) (2 ^ 53)) as [F|F]; [lia|].
    cbn [fst snd pack]. rewrite C.
    destruct (Z.leb_spec e 971); [reflexivity|lia]. }
  destruct s; cbn [signed binary_normalize]; exact R.
Qed.

Lemma cond_Zopp_signed (s : bool) (m : positive) : cond_Zopp s (Zpos m) = signed s m.
Proof. destruct s; reflexivity. Qed.

Lemma signed_scale (s : bool) (m mz : positive) (k : Z) :
  Zpos mz = Zpos m * k -> signed s mz = signed s m * k.
Proof. destruct s; cbn [signed]; lia. Qed.

(** A sum is the rounding of the exact sum. *)
Lemma SFadd_as_normalize (K : Z) (s : bool) (m : positive) (e : Z) (x : spec_float) :
  1074 <= K ->
  valid_binary (S754_finite s m e) = true ->
  valid_binary x = true -> finite_sf x ->
  exists z ez, - K <= ez
               /\ SFadd prec emax (S754_finite s m e) x = binary_normalize prec emax z ez false
               /\ z * 2 ^ (ez + K) = sval K (S754_finite s m e) + sval K x.
Proof.
  intros HK Vc Vx Fx. destruct (valid_finite _ _ _ Vc) as (_ & Ec & _).
  destruct x as [sx| | |sx mx ex]; try contradiction.
  - exists (signed s m), e. split; [lia|]. split.
    + cbn [SFadd]. symmetry. now apply binary_normalize_valid.
    + cbn [sval]. lia.
  - destruct (valid_finite _ _ _ Vx) as (_ & Ex & _).
    cbn [SFadd]. set (ez := Z.min e ex).
    destruct (shl_align_spec m e ez) as [A1 _].
    destruct (shl_align_spec mx ex ez) as [A2 _].
    replace (Z.min e ez) with ez in A1 by lia.
    replace (Z.min ex ez) with ez in A2 by lia.
    rewrite !cond_Zopp_signed.
    rewrite (signed_scale s _ _ _ A1), (signed_scale sx _ _ _ A2).
    eexists _, ez. split; [lia|]. split; [reflexivity|].
    cbn [sval]. rewrite Z.mul_add_distr_r.
    rewrite <- !Z.mul_assoc, <- !pow2_add by lia.
    replace (e - ez + (ez + K)) with (e + K) by lia.
    replace (ex - ez + (ez + K)) with (ex + K) by lia. reflexivity.
Qed.

(** Monotonicity of addition and multiplication on [spec_float]. *)
Lemma SFadd_le_mono (c x y : spec_float) :
  valid_binary c = true ->
  valid_binary x = true -> valid_binary y = true ->
  (exists s m e, c = S754_finite s m e) -> finite_sf x -> finite_sf y ->
  SFleb x y = true ->
  SFleb (SFadd prec emax c x) (SFadd prec emax c y) = true.
Proof.
  intros Vc Vx Vy (s & m & e & ->) Fx Fy H.
  destruct (SFadd_as_normalize 1074 s m e x ltac:(lia) Vc Vx Fx) as (z1 & e1 & K1 & -> & S1).
  destruct (SFadd_as_normalize 1074 s m e y ltac:(lia) Vc Vy Fy) as (z2 & e2 & K2 & -> & S2).
  apply (binary_normalize_mono z1 z2 e1 e2 1074); try lia.
  rewrite S1, S2. apply Z.add_le_mono_l. apply SFleb_sval; try assumption; lia.
Qed.

Lemma SFmul_le_mono (mw : positive) (ew : Z) (x y : spec_float) :
  valid_binary (S754_finite false mw ew) = true -> 2 ^ 52 <= Zpos mw ->
  valid_binary x = true -> valid_binary y = true ->
  finite_sf x -> finite_sf y ->
  SFleb (S754_zero false) x = true -> SFleb x y = true ->
  SFleb (SFmul prec emax (S754_finite false mw ew) x)
        (SFmul prec emax (S754_finite false mw ew) y) = true.
Proof.
  intros Vw Nw Vx Vy Fx Fy Hx H.
  destruct (valid_finite _ _ _ Vw) as (_ & Ew & Mw & _).
  assert (Pre : forall (m : positive) e,
             valid_binary (S754_finite false m e) = true ->
             ew + e <= fexp64 (Zpos (digits2_pos (mw * m)) + (ew + e))).
  { intros m e V. destruct (valid_finite _ _ _ V) as (_ & Ee & _).
    pose proof (digits2_bounds (mw * m)) as D. cbv zeta in D.
    set (d := Zpos (digits2_pos (mw * m))) in *.
    assert (0 < d) by (unfold d; lia).
    assert (52 < d).
    { apply pow2_lt_inv; [lia|lia|].
      apply Z.le_lt_trans with (Zpos (mw * m)); [|lia].
      rewrite Pos2Z.inj_mul. nia. }
    unfold fexp64. lia. }
  destruct x as [sx| | |sx mx ex]; try contradiction;
    destruct y as [sy| | |sy my ey]; try contradiction.
  - reflexivity.
  - destruct sy; [destruct sx; discriminate H|].
    cbn [SFmul xorb]. apply SFleb_nonpos_nonneg; [exact I|].
    exact (binary_round_aux_sign false (mw * my) (ew + ey) (Pre my ey Vy)).
  - destruct sx; [discriminate Hx|]. destruct sy; discriminate H.
  - destruct sx; [discriminate Hx|]. destruct sy; [discriminate H|].
    cbn [SFmul xorb].
    destruct (valid_finite _ _ _ Vx) as (_ & Ex & _).
    destruct (valid_finite _ _ _ Vy) as (_ & Ey & _).
    apply (binary_round_aux_mono (mw * mx) (mw * my) (ew + ex) (ew + ey) 2148);
      try lia; try (apply Pre; assumption).
    pose proof (SFleb_sval 1074 _ _ ltac:(lia) Vx Vy I I H) as S. cbn [sval signed] in S.
    rewrite !Pos2Z.inj_mul.
    replace (ew + ex + 2148) with ((ex + 1074) + (ew + 1074)) by lia.
    replace (ew + ey + 2148) with ((ey + 1074) + (ew + 1074)) by lia.
    rewrite (pow2_add (ex + 1074)), (pow2_add (ey + 1074)) by lia.
    pose proof (pow2_pos (ew + 1074) ltac:(lia)).
    replace (Zpos mw * Zpos mx * (2 ^ (ex + 1074) * 2 ^ (ew + 1074)))
      with (Zpos mx * 2 ^ (ex + 1074) * (Zpos mw * 2 ^ (ew + 1074))) by ring.
    replace (Zpos mw * Zpos my * (2 ^ (ey + 1074) * 2 ^ (ew + 1074)))
      with (Zpos my * 2 ^ (ey + 1074) * (Zpos mw * 2 ^ (ew + 1074))) by ring.
    apply Z.mul_le_mono_nonneg_r; [nia|exact S].
Qed.

Lemma flt_fle (x y : float) : flt x y -> fle x y.
Proof.
  unfold flt, fle. rewrite ltb_spec, leb_spec. unfold SFltb, SFleb.
  destruct (SFcompare _ _) as [[]|]; congruence.
Qed.

Lemma finite_between (lo x hi : float) :
  finite lo -> finite hi -> fle lo x -> fle x hi -> finite x.
Proof.
  unfold finite, fle. rewrite !leb_spec.
  destruct (Prim2SF lo) as [?|?| |? ? ?], (Prim2SF x) as [?|[]| |? ? ?],
           (Prim2SF hi) as [?|?| |? ? ?]; cbn; try tauto; try discriminate;
    intros; try discriminate; try tauto;
    repeat match goal with s : bool |- _ => destruct s end; discriminate.
Qed.

(** Adding a finite number is monotone. *)
Theorem float_add_le_mono (c x y : float) :
  finite_nonzero c -> finite x -> finite y ->
  fle x y -> fle (c + x) (c + y).
Proof.
  unfold finite_nonzero, finite, fle. rewrite !leb_spec, !add_spec. unfold SF64add.
  intros Fc Fx Fy H.
  apply SFadd_le_mono; try apply Prim2SF_valid; try assumption.
  destruct (Prim2SF c) as [?|?| |s m e]; try contradiction. now exists s, m, e.
Qed.

(** Multiplying by a positive normal number is monotone on the numbers
    that are not negative. *)
Theorem float_mul_le_mono (w x y : float) :
  normal_positive w -> finite x -> finite y ->
  fle 0 x -> fle x y -> fle (w * x) (w * y).
Proof.
  unfold normal_positive, finite, fle. rewrite !leb_spec, !mul_spec. unfold SF64mul.
  intros Nw Fx Fy H0 H.
  pose proof (Prim2SF_valid w) as Vw.
  destruct (Prim2SF w) as [?|?| |[] mw ew]; try contradiction.
  apply SFmul_le_mono; try apply Prim2SF_valid; try assumption.
Qed.

(** The comparison is antisymmetric, and reflexive but on NaN. *)
Lemma SFcompare_antisym (x y : spec_float) :
  SFcompare y x = option_map CompOpp (SFcompare x y).
Proof.
  destruct x as [sx|sx| |sx mx ex], y as [sy|sy| |sy my ey]; cbn;
    try reflexivity;
    try (destruct sx; reflexivity); try (destruct sy; reflexivity);
    try (destruct sx, sy; reflexivity).
  destruct sx, sy; cbn; try reflexivity;
    rewrite (Z.compare_antisym ex ey); destruct (ex ?= ey); cbn; try reflexivity;
    fold (Pos.compare mx my); fold (Pos.compare my mx);
    rewrite (Pos.compare_antisym mx my); destruct (Pos.compare mx my); reflexivity.
Qed.

Lemma SFcompare_refl (x : spec_float) : x <> S754_nan -> SFcompare x x = Some Eq.
Proof.
  destruct x as [s|s| |s m e]; cbn; intros H; try reflexivity; try congruence.
  - destruct s; reflexivity.
  - rewrite Z.compare_refl. fold (Pos.compare m m). rewrite Pos.compare_refl.
    destruct s; reflexivity.
Qed.

Lemma fle_refl (x : float) : ordinary x -> fle x x.
Proof.
  unfold ordinary, fle. rewrite leb_spec. unfold SFleb. intros H.
  now rewrite (SFcompare_refl _ H).
Qed.

Lemma not_flt_fle (a b : float) :
  ordinary a -> ordinary b -> (b <? a)%float = false -> fle a b.
Proof.
  unfold ordinary, fle. rewrite ltb_spec, leb_spec. unfold SFltb, SFleb.
  intros Ha Hb. rewrite (SFcompare_antisym (Prim2SF a) (Prim2SF b)).
  destruct (SFcompare (Prim2SF a) (Prim2SF b)) as [[]|] eqn:E; cbn; try congruence.
  exfalso. destruct (Prim2SF a) as [?|?| |? ? ?], (Prim2SF b) as [?|?| |? ? ?];
    cbn in E; try congruence;
    repeat match goal with s : bool |- _ => destruct s end; discriminate.
Qed.

(** On numbers that are not NaN, Python's [min] and [max] return the
    smaller and the larger of their two arguments. *)
Lemma min_max_bounds (a b : float) :
  ordinary a -> ordinary b ->
  (fle (Py.min a b) a /\ fle (Py.min a b) b /\ (Py.min a b = a \/ Py.min a b = b))
  /\ (fle a (Py.max a b) /\ fle b (Py.max a b) /\ (Py.max a b = a \/ Py.max a b = b)).
Proof.
  intros Ha Hb. unfold Py.min, Py.max. split.
  - destruct (b <? a)%float eqn:E.
    + repeat split; [now apply flt_fle | now apply fle_refl | now right].
    + repeat split; [now apply fle_refl | now apply not_flt_fle | now left].
  - destruct (a <? b)%float eqn:E.
    + repeat split; [now apply flt_fle | now apply fle_refl | now right].
    + repeat split; [now apply fle_refl | now apply not_flt_fle | now left].
Qed.

(** [random.uniform(-0.05, 0.05)] stays between its bounds. *)
Lemma uniform_in_range (r : float) :
  fle 0 r -> flt r 1 ->
  fle (-0.05) (-0.05 + (0.05 - -0.05) * r) /\ fle (-0.05 + (0.05 - -0.05) * r) 0.05.
Proof.
  intros H0 H1. apply flt_fle in H1.
  assert (Fr : finite r) by (apply (finite_between 0 r 1); try exact I; assumption).
  assert (Nw : normal_positive (0.05 - -0.05)) by (vm_compute; discriminate).
  assert (L : fle ((0.05 - -0.05) * 0) ((0.05 - -0.05) * r)).
  { apply float_mul_le_mono; try exact I; try assumption. reflexivity. }
  assert (U : fle ((0.05 - -0.05) * r) ((0.05 - -0.05) * 1)).
  { apply float_mul_le_mono; try exact I; assumption. }
  change ((0.05 - -0.05) * 0)%float with 0%float in L.
  change ((0.05 - -0.05) * 1)%float with 0.1%float in U.
  assert (Fx : finite ((0.05 - -0.05) * r))
    by (apply (finite_between 0 _ 0.1); try exact I; assumption).
  split.
  - change (fle (-0.05 + 0) (-0.05 + (0.05 - -0.05) * r)).
    apply float_add_le_mono; try exact I; assumption.
  - change (fle (-0.05 + (0.05 - -0.05) * r) (-0.05 + 0.1)).
    apply float_add_le_mono; try exact I; assumption.
Qed.

(** Adding it to a base point stays between the base point moved by the
    bounds. *)
Lemma offset_in_range (base u : float) :
  finite_nonzero base ->
  fle (-0.05) u -> fle u 0.05 ->
  fle (base + -0.05) (base + u) /\ fle (base + u) (base + 0.05).
Proof.
  intros Fb L U.
  assert (Fu : finite u) by (apply (finite_between (-0.05) u 0.05); try exact I; assumption).
  split; apply float_add_le_mono; try exact I; assumption.
Qed.

End Binary64.

(** ** The generator *)

(** The loop of [bisect] ends by its own test: any fuel from [hi - lo] on
    gives the same index, which lies between [lo] and [hi]. *)
Lemma bisect_loop_fuel (a : list float) (x : float) (fuel : nat) :
  forall fuel' lo hi,
    hi - lo <= fuel -> hi - lo <= fuel' ->
    Random.bisect_loop fuel a x lo hi = Random.bisect_loop fuel' a x lo hi
    /\ (lo <= hi -> lo <= Random.bisect_loop fuel a x lo hi <= hi).
Proof.
  induction fuel as [|fuel IH]; intros fuel' lo hi H H'.
  - cbn [Random.bisect_loop]. split; [|lia].
    destruct fuel' as [|fuel']; cbn [Random.bisect_loop]; [reflexivity|].
    destruct (Nat.ltb_spec lo hi); [lia | reflexivity].
  - cbn [Random.bisect_loop]. destruct (Nat.ltb_spec lo hi) as [L|G].
    + assert (M : lo <= (lo + hi) / 2 < hi).
      { split; [apply Nat.div_le_lower_bound | apply Nat.Div0.div_lt_upper_bound]; lia. }
      destruct fuel' as [|fuel']; [lia|]. cbn [Random.bisect_loop].
      destruct (Nat.ltb_spec lo hi) as [_|]; [|lia].
      destruct (PrimFloat.ltb x (nth ((lo + hi) / 2) a nan)).
      * destruct (IH fuel' lo ((lo + hi) / 2)) as [E B]; [lia|lia|].
        split; [exact E|]. intros _. specialize (B ltac:(lia)). lia.
      * destruct (IH fuel' (S ((lo + hi) / 2)) hi) as [E B]; [lia|lia|].
        split; [exact E|]. intros _. specialize (B ltac:(lia)). lia.
    + split; [|lia]. destruct fuel' as [|fuel']; cbn [Random.bisect_loop]; [reflexivity|].
      destruct (Nat.ltb_spec lo hi); [lia | reflexivity].
Qed.

Lemma count_of_cases (r : float) : count_of r = 1%Z \/ count_of r = 3%Z \/ count_of r = 6%Z.
Proof.
  unfold count_of, Random.bisect. cbn.
  destruct (PrimFloat.ltb _ _); [destruct (PrimFloat.ltb _ _)|]; cbn; auto.
Qed.

Lemma choices_hotspot (g : Random.state) :
  Random.choices [1; 3; 6]%Z [0.5; 0.3; 0.2]%float g
  = (Some [count_of (Random.tape g (Random.pos g))], advance g 1).
Proof.
  unfold Random.choices, count_of, Random.bisect, Random.random, advance. cbn.
  destruct (PrimFloat.ltb _ _); [destruct (PrimFloat.ltb _ _)|]; reflexivity.
Qed.

Lemma load_data_loop_spec (n : nat) :
  forall data g,
    load_data_loop n data g
    = (Some (data ++ points (Random.tape g) (Random.pos g) n), advance g (3 * n)).
Proof.
  induction n as [|n IH]; intros data g.
  - cbn. rewrite app_nil_r. destruct g; reflexivity.
  - cbn [load_data_loop]. unfold Random.uniform, Random.random.
    rewrite choices_hotspot. cbn [Random.tape Random.pos advance].
    destruct (classify _) as [c k] eqn:Hc.
    rewrite IH. cbn [Random.tape Random.pos advance points].
    rewrite <- app_assoc. cbn [app].
    unfold point. cbn [Random.tape Random.pos]. rewrite Hc. cbn [fst snd].
    unfold advance. cbn [Random.tape Random.pos].
    replace (3 * S n + Random.pos g) with (3 * n + (1 + S (S (Random.pos g)))) by lia.
    reflexivity.
Qed.

(** [load_data] never raises: it returns a table of 100 rows and leaves the
    generator 300 results further. *)
Lemma load_data_spec (g : Random.state) :
  load_data g = (Some (points (Random.tape g) (Random.pos g) 100), advance g 300).
Proof. unfold load_data. rewrite load_data_loop_spec. reflexivity. Qed.

Lemma points_length tp k n : List.length (points tp k n) = n.
Proof. revert k; induction n; intros; cbn; auto. Qed.

Lemma in_points tp n : forall k r,
  In r (points tp k n) -> exists j, r = point (tp j) (tp (S j)) (tp (S (S j))).
Proof.
  induction n as [|n IH]; intros k r H; cbn in H; [contradiction|].
  destruct H as [<-|H]; eauto.
Qed.

Lemma generated_inv (df : table) :
  generated df -> exists tp k, df = points tp k 100.
Proof.
  intros [g H]. rewrite load_data_spec in H. cbn [fst] in H.
  injection H as <-. now exists (Random.tape g), (Random.pos g).
Qed.

(** ** Classification *)

Lemma classify_high (c : Z) : (5 <= c)%Z -> classify c = ("red", high_label).
Proof. intros H. unfold classify. destruct (Z.geb_spec c 5); [reflexivity | lia]. Qed.

Lemma classify_medium (c : Z) : (2 <= c <= 4)%Z -> classify c = ("orange", medium_label).
Proof.
  intros H. unfold classify.
  destruct (Z.geb_spec c 5); [lia|]. destruct (Z.geb_spec c 2); [reflexivity | lia].
Qed.

Lemma point_labels r1 r2 r3 :
  (color (point r1 r2 r3), risk (point r1 r2 r3)) = classify (count (point r1 r2 r3)).
Proof. unfold point; cbn. now destruct (classify _). Qed.

Lemma point_count r1 r2 r3 :
  let c := count (point r1 r2 r3) in c = 1%Z \/ c = 3%Z \/ c = 6%Z.
Proof. cbn. apply count_of_cases. Qed.

Lemma sample_generated : generated sample_table.
Proof. exists sample_rng. vm_compute. reflexivity. Defined.

(** C1. In every generated table each row carries the colour and label the
    classification gives to its count, and the count falls in exactly one
    of the three buckets: at least 5 (red, high risk), from 2 to 4 (orange,
    medium risk), or 1 (green, low risk); the classification gives these
    colours and labels to every count of these three ranges. *)
Theorem classify_three_buckets (df : table) (r : row) :
  generated df -> In r df ->
  (color r, risk r) = classify (count r) /\
  ( ((5 <= count r)%Z /\ color r = "red" /\ risk r = high_label)
    \/ ((2 <= count r <= 4)%Z /\ color r = "orange" /\ risk r = medium_label)
    \/ (count r = 1%Z /\ color r = "green" /\ risk r = low_label) )
  /\ (forall c, (5 <= c)%Z -> classify c = ("red", high_label))
  /\ (forall c, (2 <= c <= 4)%Z -> classify c = ("orange", medium_label))
  /\ classify 1 = ("green", low_label).
Proof.
  intros Hg Hr.
  cut ((color r, risk r) = classify (count r) /\
       ( ((5 <= count r)%Z /\ color r = "red" /\ risk r = high_label)
         \/ ((2 <= count r <= 4)%Z /\ color r = "orange" /\ risk r = medium_label)
         \/ (count r = 1%Z /\ color r = "green" /\ risk r = low_label) )).
  { intros [A B]. repeat split; try assumption.
    - exact classify_high.
    - exact classify_medium. }
  destruct (generated_inv _ Hg) as (tp & k & ->).
  destruct (in_points _ _ _ _ Hr) as [j ->].
  pose proof (point_labels (tp j) (tp (S j)) (tp (S (S j)))) as Hl.
  split; [exact Hl|].
  pose proof (point_count (tp j) (tp (S j)) (tp (S (S j)))) as Hc. cbv zeta in Hc.
  destruct Hc as [Hc | [Hc | Hc]]; rewrite Hc in Hl |- *.
  - right; right. inversion Hl. auto.
  - right; left. inversion Hl. repeat split; auto; lia.
  - left. inversion Hl. repeat split; auto; lia.
Qed.

Lemma classify_three_buckets_witness :
  let r := {| lat := 24.0977; lon := 120.6811125; count := 1;
              color := "green"; risk := low_label |} in
  (color r, risk r) = classify (count r) /\
  ( ((5 <= count r)%Z /\ color r = "red" /\ risk r = high_label)
    \/ ((2 <= count r <= 4)%Z /\ color r = "orange" /\ risk r = medium_label)
    \/ (count r = 1%Z /\ color r = "green" /\ risk r = low_label) )
  /\ (forall c, (5 <= c)%Z -> classify c = ("red", high_label))
  /\ (forall c, (2 <= c <= 4)%Z -> classify c = ("orange", medium_label))
  /\ classify 1 = ("green", low_label).
Proof.
  apply (classify_three_buckets sample_table).
  - exact sample_generated.
  - left. reflexivity.
Defined.

(** C10. The low bucket is the whole range below 2: a count of 0 or less
    is given the colour green and the label of a single occurrence, as a
    count of 1 is. *)
Theorem classify_below_two (c : Z) :
  (c < 2)%Z ->
  classify c = ("green", "曾經發生 (1次)") /\ classify c = classify 1.
Proof.
  intros H. unfold classify.
  destruct (Z.geb_spec c 5) as [G5|_]; [lia|].
  destruct (Z.geb_spec c 2) as [G2|_]; [lia|].
  split; reflexivity.
Qed.

Lemma classify_below_two_witness :
  (classify 0 = ("green", "曾經發生 (1次)") /\ classify 0 = classify 1)
  /\ (classify (-7) = ("green", "曾經發生 (1次)") /\ classify (-7) = classify 1).
Proof. split; apply classify_below_two; lia. Defined.

(** C8. Every generated count is 1, 3 or 6; hence in a generated table an
    orange row has count 3 and a red row has count 6. *)
Theorem generated_counts (df : table) (r : row) :
  generated df -> In r df ->
  (count r = 1 \/ count r = 3 \/ count r = 6)%Z
  /\ (color r = "orange" -> count r = 3%Z)
  /\ (color r = "red" -> count r = 6%Z).
Proof.
  intros Hg Hr. destruct (generated_inv _ Hg) as (tp & k & ->).
  destruct (in_points _ _ _ _ Hr) as [j ->].
  pose proof (point_labels (tp j) (tp (S j)) (tp (S (S j)))) as Hl.
  pose proof (point_count (tp j) (tp (S j)) (tp (S (S j)))) as Hc. cbv zeta in Hc.
  split; [exact Hc|].
  destruct Hc as [Hc | [Hc | Hc]]; rewrite Hc in Hl |- *;
    injection Hl as H1 H2; split; intros H; try reflexivity;
    unfold point in H; cbn [color] in H; congruence.
Qed.

Lemma generated_counts_witness :
  let r := {| lat := 24.1711375; lon := 120.65455; count := 6;
              color := "red"; risk := high_label |} in
  (count r = 1 \/ count r = 3 \/ count r = 6)%Z
  /\ (color r = "orange" -> count r = 3%Z)
  /\ (color r = "red" -> count r = 6%Z).
Proof.
  apply (generated_counts sample_table).
  - exact sample_generated.
  - right; left. reflexivity.
Defined.

(** ** The proximity filter *)

(** Membership in the selection, on the bounds the script computes. *)
Lemma nearby_in_padded_box (df : table) (start_coords end_coords : coords) (r : row) :
  In r (nearby_accidents df start_coords end_coords)
  <-> In r df /\ inside (padded_box start_coords end_coords) r.
Proof.
  unfold nearby_accidents, inside, padded_box, between, fle, margin; cbn [south north west east].
  rewrite filter_In, !andb_true_iff. reflexivity.
Qed.

(** The selection holds at most as many rows as the table. *)
Lemma nearby_length (df : table) (s e : coords) :
  List.length (nearby_accidents df s e) <= List.length df.
Proof. apply filter_length_le. Qed.

(** C9. The rows near the path are rows of the table, and the number of
    high-risk rows reported is at most the number of rows near the path. *)
Theorem nearby_subset_and_counts (df : table) (start_coords end_coords : coords) :
  let nearby := nearby_accidents df start_coords end_coords in
  incl nearby df
  /\ high_risk_count nearby <= List.length nearby
  /\ List.length nearby <= List.length df.
Proof.
  cbv zeta. split; [|split].
  - intros r H. unfold nearby_accidents in H. apply filter_In in H. tauto.
  - apply filter_length_le.
  - apply nearby_length.
Qed.

(** ** Executions of the script *)

Lemma mark_all_spec (rows : table) : forall srv p,
  mark_all rows (srv, p)
  = (Some tt, (srv, {| m := m p ++ map circle_of rows; bounds := bounds p;
                       alerts := alerts p; log := log p |})).
Proof.
  induction rows as [|r rows IH]; intros srv p.
  - cbn. rewrite app_nil_r. now destruct p.
  - cbn [mark_all]. unfold bind, add_to. rewrite IH. cbn.
    now rewrite <- app_assoc.
Qed.

Lemma execute_unfold (i : inputs) (srv : server) :
  execute i srv
  = query i (table_of srv)
          (after_load srv,
           {| m := map circle_of (table_of srv); bounds := None; alerts := [];
              log := [LoadData (filled (cache srv))] |}).
Proof.
  unfold execute, script, bind, cached_load_data, table_of, after_load, blank.
  destruct (cache srv) as [df|] eqn:Hc.
  - cbn. now rewrite mark_all_spec.
  - rewrite load_data_spec. cbv beta iota zeta. rewrite mark_all_spec.
    unfold table_of. rewrite Hc. reflexivity.
Qed.

Lemma pressed_test (i : inputs) :
  pressed i ->
  run_btn i && Py.truthy (start_location i) && Py.truthy (end_location i) = true.
Proof.
  intros (Hb & Hs & He). unfold Py.truthy. rewrite Hb.
  apply String.eqb_neq in Hs, He. now rewrite Hs, He.
Qed.

Lemma get_coordinates_spec (address : string) (srv : server) (p : page) :
  get_coordinates address (srv, p)
  = (match answer srv 0 address with
     | Nominatim.Location latitude longitude => Some (Some (latitude, longitude))
     | Nominatim.NoResult | Nominatim.TimedOut => Some None
     | Nominatim.Failure => None
     end,
     (asked srv 1,
      {| m := m p; bounds := bounds p; alerts := alerts p;
         log := log p ++ [Geocode (query_of address)] |})).
Proof.
  unfold get_coordinates, Nominatim.geocode, answer, asked, query_of.
  cbv beta iota zeta. cbn [Nat.add].
  destruct (Nominatim.service _ _ _); reflexivity.
Qed.

Lemma answer_asked (srv : server) (address : string) :
  answer (asked srv 1) 0 address = answer srv 1 address.
Proof. reflexivity. Qed.

Lemma asked_twice (srv : server) : asked (asked srv 1) 1 = asked srv 2.
Proof. reflexivity. Qed.

Lemma query_found (i : inputs) (df : table) (srv : server) (p : page) (a b c d : float) :
  pressed i ->
  answer srv 0 (start_location i) = Nominatim.Location a b ->
  answer srv 1 (end_location i) = Nominatim.Location c d ->
  query i df (srv, p)
  = (Some tt,
     (asked srv 2,
      {| m := m p ++ [Marker (a, b) "blue" "play" "起點";
                      Marker (c, d) "black" "stop" "終點";
                      PolyLine [(a, b); (c, d)] "blue" 2 "5"];
         bounds := Some [(a, b); (c, d)];
         alerts := alerts p
                   ++ Success (route_message (start_location i) (end_location i))
                   :: match nearby_accidents df (a, b) (c, d) with
                      | [] => []
                      | _ :: _ =>
                          [Warning (report (List.length (nearby_accidents df (a, b) (c, d)))
                                           (high_risk_count (nearby_accidents df (a, b) (c, d))))]
                      end;
         log := log p ++ [Geocode (query_of (start_location i));
                          Geocode (query_of (end_location i))] |})).
Proof.
  intros Hp H1 H2. unfold query. rewrite (pressed_test _ Hp).
  unfold bind. rewrite get_coordinates_spec, H1, get_coordinates_spec.
  rewrite answer_asked, H2, asked_twice.
  unfold draw_path, bind, add_to, fit_bounds, show. cbv beta iota zeta.
  cbn [m bounds alerts log].
  destruct (nearby_accidents df (a, b) (c, d)) eqn:Hn;
    cbv beta iota zeta; cbn [m bounds alerts log]; rewrite <- !app_assoc; reflexivity.
Qed.

Lemma query_failed (i : inputs) (df : table) (srv : server) (p : page) :
  pressed i ->
  let r1 := answer srv 0 (start_location i) in
  let r2 := answer srv 1 (end_location i) in
  (failed r1 /\ (failed r2 \/ found r2)) \/ (found r1 /\ failed r2) ->
  query i df (srv, p)
  = (Some tt,
     (asked srv 2,
      {| m := m p; bounds := bounds p;
         alerts := alerts p ++ [Error not_found];
         log := log p ++ [Geocode (query_of (start_location i));
                          Geocode (query_of (end_location i))] |})).
Proof.
  intros Hp r1 r2 H. unfold query. rewrite (pressed_test _ Hp).
  subst r1 r2. unfold failed, found in H.
  unfold bind. rewrite get_coordinates_spec.
  destruct H as [[[H1|H1] [[H2|H2]|(x & y & H2)]] | [(x & y & H1) [H2|H2]]];
    rewrite H1, get_coordinates_spec, answer_asked, H2, asked_twice;
    unfold show; cbn [m bounds alerts log]; rewrite <- !app_assoc; reflexivity.
Qed.

Lemma draw_path_server (i : inputs) (df : table) (s e : coords) (srv : server) (p : page) :
  server_of (draw_path i df s e (srv, p)) = srv
  /\ log (page_of (draw_path i df s e (srv, p))) = log p.
Proof.
  unfold draw_path, bind, add_to, fit_bounds, show. cbv beta iota zeta.
  destruct (nearby_accidents df s e); split; reflexivity.
Qed.

(** The handler changes nothing of the server but the count of requests,
    and logs nothing but requests to the geocoder. *)
Lemma query_frame (i : inputs) (df : table) (srv : server) (p : page) :
  let x := query i df (srv, p) in
  rng (server_of x) = rng srv
  /\ cache (server_of x) = cache srv
  /\ exists qs, log (page_of x) = log p ++ map Geocode qs.
Proof.
  cbv zeta. unfold query.
  destruct (run_btn i && Py.truthy (start_location i) && Py.truthy (end_location i)).
  2:{ cbn. repeat split. exists []. now rewrite app_nil_r. }
  unfold bind. rewrite get_coordinates_spec.
  destruct (answer srv 0 (start_location i)) as [a b| | |];
    try (rewrite get_coordinates_spec;
         destruct (answer (asked srv 1) 0 (end_location i)) as [c d| | |]);
    try (cbn; repeat split;
         first [ exists [query_of (start_location i); query_of (end_location i)];
                 rewrite <- ?app_assoc; reflexivity
               | exists [query_of (start_location i)]; reflexivity ]).
  match goal with
  | |- context [draw_path ?i ?df ?s ?e (?sv, ?pg)] =>
      destruct (draw_path_server i df s e sv pg) as [Hs Hl]; rewrite Hs, Hl
  end.
  cbn. repeat split.
  exists [query_of (start_location i); query_of (end_location i)].
  now rewrite <- app_assoc.
Qed.

(** What the handler returns and shows depends on the server through the
    geocoder only. *)
Lemma query_page (i : inputs) (df : table) (srv srv' : server) (p : page) :
  nominatim srv = nominatim srv' ->
  fst (query i df (srv, p)) = fst (query i df (srv', p))
  /\ page_of (query i df (srv, p)) = page_of (query i df (srv', p)).
Proof.
  intros Hn.
  assert (A : forall k ad, answer srv' k ad = answer srv k ad)
    by (intros; unfold answer; now rewrite Hn).
  unfold query.
  destruct (run_btn i && Py.truthy (start_location i) && Py.truthy (end_location i));
    [|split; reflexivity].
  unfold bind. rewrite !get_coordinates_spec, A.
  destruct (answer srv 0 (start_location i)) as [a b| | |]; cbv beta iota;
    try (split; reflexivity);
    rewrite ?get_coordinates_spec, !answer_asked, A;
    (destruct (answer srv 1 (end_location i)) as [c d| | |]); cbv beta iota;
    try (split; reflexivity).
  unfold draw_path, bind, add_to, fit_bounds, show. cbv beta iota zeta.
  destruct (nearby_accidents df (a, b) (c, d)); split; reflexivity.
Qed.

Lemma no_polyline_among_circles (df : table) :
  filter is_polyline (map circle_of df) = [].
Proof. induction df; cbn; auto. Qed.

Lemma no_load_among_geocodes (qs : list string) : filter is_load (map Geocode qs) = [].
Proof. induction qs; cbn; auto. Qed.

Lemma execute_server (i : inputs) (srv : server) :
  rng (server_of (execute i srv)) = rng (after_load srv)
  /\ cache (server_of (execute i srv)) = Some (table_of srv).
Proof.
  rewrite execute_unfold.
  destruct (query_frame i (table_of srv) (after_load srv)
              {| m := map circle_of (table_of srv); bounds := None; alerts := [];
                 log := [LoadData (filled (cache srv))] |}) as (Hr & Hc & _).
  split; [exact Hr|]. rewrite Hc. unfold after_load, table_of.
  destruct (cache srv) eqn:E; [exact E | reflexivity].
Qed.

(** Every execution calls [load_data] once. *)
Lemma execute_loads_once (i : inputs) (srv : server) :
  filter is_load (log (page_of (execute i srv))) = [LoadData (filled (cache srv))].
Proof.
  rewrite execute_unfold.
  destruct (query_frame i (table_of srv) (after_load srv)
              {| m := map circle_of (table_of srv); bounds := None; alerts := [];
                 log := [LoadData (filled (cache srv))] |}) as (_ & _ & qs & Hl).
  rewrite Hl. cbn [log]. rewrite filter_app, no_load_among_geocodes. reflexivity.
Qed.

(** ** The handler of the button *)

(** C5. When both addresses are geocoded, the map receives, after the
    circles of the hotspots, the two markers and one polyline, made of the
    two coordinates in the order start, end, whatever the table holds. *)
Theorem path_is_straight_segment (i : inputs) (srv : server) (a b c d : float) :
  pressed i ->
  answer srv 0 (start_location i) = Nominatim.Location a b ->
  answer srv 1 (end_location i) = Nominatim.Location c d ->
  fst (execute i srv) = Some tt
  /\ m (page_of (execute i srv))
     = map circle_of (table_of srv)
       ++ [Marker (a, b) "blue" "play" "起點"; Marker (c, d) "black" "stop" "終點";
           PolyLine [(a, b); (c, d)] "blue" 2 "5"]
  /\ filter is_polyline (m (page_of (execute i srv)))
     = [PolyLine [(a, b); (c, d)] "blue" 2 "5"].
Proof.
  intros Hp H1 H2. rewrite execute_unfold.
  assert (E1 : answer (after_load srv) 0 (start_location i) = Nominatim.Location a b).
  { rewrite <- H1. unfold answer, after_load. now destruct (cache srv). }
  assert (E2 : answer (after_load srv) 1 (end_location i) = Nominatim.Location c d).
  { rewrite <- H2. unfold answer, after_load. now destruct (cache srv). }
  rewrite (query_found i _ _ _ a b c d Hp E1 E2).
  split; [reflexivity|]. unfold page_of. cbn [snd m].
  split; [reflexivity|].
  rewrite filter_app, no_polyline_among_circles. reflexivity.
Qed.

(** C4, as the script does it.  When a geocoding call returns nothing or
    times out, for the start or for the end address, and the other call
    returns a result or fails likewise (it raises no other exception), the
    execution shows the error message and nothing else: the map holds the
    circles of the hotspots only (no marker of start or end, no line, no
    bounds), no report is shown, and each address was sent to the geocoder
    once. *)
Theorem failed_geocoding_shows_error (i : inputs) (srv : server) :
  pressed i ->
  (failed (answer srv 0 (start_location i))
   /\ (failed (answer srv 1 (end_location i)) \/ found (answer srv 1 (end_location i))))
  \/ (found (answer srv 0 (start_location i)) /\ failed (answer srv 1 (end_location i))) ->
  fst (execute i srv) = Some tt
  /\ alerts (page_of (execute i srv)) = [Error not_found]
  /\ m (page_of (execute i srv)) = map circle_of (table_of srv)
  /\ bounds (page_of (execute i srv)) = None
  /\ geocodes (log (page_of (execute i srv)))
     = [query_of (start_location i); query_of (end_location i)]
  /\ Nominatim.served (nominatim (server_of (execute i srv)))
     = 2 + Nominatim.served (nominatim srv).
Proof.
  intros Hp H. rewrite execute_unfold.
  assert (E : forall k ad, answer (after_load srv) k ad = answer srv k ad).
  { intros. unfold answer, after_load. now destruct (cache srv). }
  rewrite <- !E in H. rewrite (query_failed i _ _ _ Hp H).
  unfold page_of, server_of. cbn [fst snd m bounds alerts log app geocodes flat_map].
  repeat split. unfold after_load. now destruct (cache srv).
Qed.


(** ** Sample executions *)

Lemma sample_pressed : pressed sample_inputs.
Proof. repeat split; discriminate. Qed.

Lemma path_is_straight_segment_witness :
  fst (execute sample_inputs (boot central_service)) = Some tt
  /\ m (page_of (execute sample_inputs (boot central_service)))
     = map circle_of (table_of (boot central_service))
       ++ [Marker (24.13, 120.68)%float "blue" "play" "起點";
           Marker (24.18, 120.64)%float "black" "stop" "終點";
           PolyLine [(24.13, 120.68); (24.18, 120.64)]%float "blue" 2 "5"]
  /\ filter is_polyline (m (page_of (execute sample_inputs (boot central_service))))
     = [PolyLine [(24.13, 120.68); (24.18, 120.64)]%float "blue" 2 "5"].
Proof.
  apply (path_is_straight_segment sample_inputs (boot central_service));
    [exact sample_pressed | reflexivity | reflexivity].
Defined.

Lemma failed_geocoding_shows_error_witness :
  fst (execute sample_inputs (boot slow_service)) = Some tt
  /\ alerts (page_of (execute sample_inputs (boot slow_service))) = [Error not_found]
  /\ m (page_of (execute sample_inputs (boot slow_service)))
     = map circle_of (table_of (boot slow_service))
  /\ bounds (page_of (execute sample_inputs (boot slow_service))) = None
  /\ geocodes (log (page_of (execute sample_inputs (boot slow_service))))
     = [query_of "台中火車站"; query_of "逢甲大學"]
  /\ Nominatim.served (nominatim (server_of (execute sample_inputs (boot slow_service)))) = 2.
Proof.
  apply (failed_geocoding_shows_error sample_inputs (boot slow_service));
    [exact sample_pressed |].
  left. split; [right; reflexivity | right; now exists 24.18%float, 120.64%float].
Defined.


(** On the sample table 43 rows are near the path, 20 of them high-risk. *)
Example report_sample :
  alerts (page_of (execute sample_inputs (boot central_service)))
  = [Success (route_message "台中火車站" "逢甲大學"); Warning (report 43 20)].
Proof. vm_compute. reflexivity. Qed.


(** C4, as stated, fails: the call for the start address times out, the
    call for the end address raises another exception, which
    [get_coordinates] does not catch; the execution stops there and the
    page shows no error message. *)
Lemma no_error_when_other_call_raises :
  pressed sample_inputs
  /\ failed (answer (boot unavailable_service) 0 (start_location sample_inputs))
  /\ answer (boot unavailable_service) 1 (end_location sample_inputs) = Nominatim.Failure
  /\ fst (execute sample_inputs (boot unavailable_service)) = None
  /\ alerts (page_of (execute sample_inputs (boot unavailable_service))) = []
  /\ ~ exists body,
         In (Error body) (alerts (page_of (execute sample_inputs (boot unavailable_service)))).
Proof.
  split; [exact sample_pressed|].
  split; [right; reflexivity|].
  split; [reflexivity|].
  split; [vm_compute; reflexivity|].
  assert (E : alerts (page_of (execute sample_inputs (boot unavailable_service))) = [])
    by (vm_compute; reflexivity).
  split; [exact E|].
  intros [body H]. rewrite E in H. exact H.
Qed.

(** ** The range of the generated coordinates *)

Lemma base_point_finite : finite_nonzero base_lat /\ finite_nonzero base_lon.
Proof. split; vm_compute; exact I. Qed.

Lemma point_in_range (r1 r2 r3 : float) :
  fle 0 r1 -> flt r1 1 -> fle 0 r2 -> flt r2 1 -> in_range (point r1 r2 r3).
Proof.
  intros A1 B1 A2 B2. unfold in_range, point. cbn [lat lon].
  destruct (uniform_in_range r1 A1 B1) as [L1 U1].
  destruct (uniform_in_range r2 A2 B2) as [L2 U2].
  destruct base_point_finite as [Fa Fo].
  change (base_lat - 0.05)%float with (base_lat + -0.05)%float.
  change (base_lon - 0.05)%float with (base_lon + -0.05)%float.
  split; apply offset_in_range; assumption.
Qed.

Lemma points_in_range (tp : nat -> float) (k n : nat) (r : row) :
  unit_interval tp -> In r (points tp k n) -> in_range r.
Proof.
  intros Htp Hr. destruct (in_points _ _ _ _ Hr) as [j ->].
  apply point_in_range; apply Htp.
Qed.

(** On a tape of results of [random()], [load_data] returns 100 rows, all
    in the range. *)
Lemma load_data_in_range (g : Random.state) :
  unit_interval (Random.tape g) ->
  exists df, load_data g = (Some df, advance g 300)
             /\ List.length df = 100
             /\ forall r, In r df -> in_range r.
Proof.
  intros Htp. exists (points (Random.tape g) (Random.pos g) 100).
  split; [apply load_data_spec|]. split; [apply points_length|].
  intros r Hr. exact (points_in_range _ _ _ _ Htp Hr).
Qed.

Lemma reachable_inv (tp : nat -> float) (srv : server) :
  reachable tp srv ->
  Random.tape (rng srv) = tp
  /\ (cache srv = None \/ exists k, cache srv = Some (points tp k 100)).
Proof.
  induction 1 as [k n | i srv _ [IHt IHc]].
  - cbn. auto.
  - destruct (execute_server i srv) as [Hr Hc]. rewrite Hr, Hc.
    unfold after_load, table_of.
    destruct IHc as [E | [k E]]; rewrite E.
    + cbn. split; [exact IHt|]. right. exists (Random.pos (rng srv)). now rewrite IHt.
    + split; [exact IHt|]. right. now exists k.
Qed.

Lemma reachable_table (tp : nat -> float) (srv : server) :
  reachable tp srv -> exists k, table_of srv = points tp k 100.
Proof.
  intros H. destruct (reachable_inv _ _ H) as [Ht [E | [k E]]]; unfold table_of; rewrite E.
  - exists (Random.pos (rng srv)). now rewrite Ht.
  - now exists k.
Qed.

(** The bounds of the range, as the script's arithmetic gives them. *)
Example range_bounds :
  ((base_lat - 0.05)%float, (base_lat + 0.05)%float,
   (base_lon - 0.05)%float, (base_lon + 0.05)%float)
  = (24.0977%float, 24.197700000000001%float, 120.6233%float, 120.7233%float).
Proof. reflexivity. Qed.

Lemma sample_tape_unit_interval : unit_interval sample_tape.
Proof.
  intros k. unfold sample_tape.
  assert (H : k * 37 mod 64 < 64) by (apply Nat.mod_upper_bound; lia).
  set (n := k * 37 mod 64) in *. clearbody n.
  do 64 (destruct n as [|n]; [split; vm_compute; reflexivity|]).
  lia.
Qed.

(** * Further properties *)

(** ** The order of binary64 numbers *)

Section Binary64Order.
Local Open Scope Z_scope.

(** Multiplying by 1.0 is exact. *)
Lemma SFmul_one (x : spec_float) :
  valid_binary x = true ->
  SFmul prec emax x (S754_finite false 4503599627370496 (-52)) = x.
Proof.
  intros V. destruct x as [s|s| |s m e]; cbn [SFmul]; try reflexivity;
    try (destruct s; reflexivity).
  destruct (valid_finite _ _ _ V) as (C & Ee & Mm & _).
  replace (xorb s false) with s by (destruct s; reflexivity).
  assert (Hm : Zpos (m * 4503599627370496) = Zpos m * 2 ^ 52) by reflexivity.
  assert (Hd : Zpos (digits2_pos (m * 4503599627370496)) = Zpos (digits2_pos m) + 52)
    by (apply digits2_shift; [lia | exact Hm]).
  assert (HE : fexp64 (Zpos (digits2_pos (m * 4503599627370496)) + (e + -52)) = e)
    by (rewrite Hd;
        replace (Zpos (digits2_pos m) + 52 + (e + -52)) with (Zpos (digits2_pos m) + e)
          by lia; exact C).
  destruct (binary_round_aux_spec s (m * 4503599627370496) (e + -52)) as (q & N & B & ->);
    [lia|].
  rewrite HE in *. replace (e - (e + -52)) with 52 in N by lia.
  assert (q = Zpos m).
  { apply Z.le_antisymm.
    - apply (nearest_even_le_int _ 52 _ _ ltac:(lia) N). lia.
    - apply (nearest_even_ge_int _ 52 _ _ ltac:(lia) N). lia. }
  subst q. unfold renorm. destruct (Z.eqb_spec (Zpos m) (2 ^ 53)); [lia|].
  cbn [fst snd pack]. destruct (Z.leb_spec e 971); [reflexivity | lia].
Qed.

Lemma mul_one_r (x : float) : (x * 1)%float = x.
Proof.
  apply Prim2SF_inj. rewrite mul_spec. unfold SF64mul.
  change (Prim2SF 1) with (S754_finite false 4503599627370496 (-52)).
  apply SFmul_one, Prim2SF_valid.
Qed.

(** The sign of a zero does not count in a comparison. *)
Lemma SFcompare_zero_l (s : bool) (y : spec_float) :
  SFcompare (S754_zero s) y = SFcompare (S754_zero false) y.
Proof. destruct y; reflexivity. Qed.

Lemma SFcompare_zero_r (s : bool) (x : spec_float) :
  SFcompare x (S754_zero s) = SFcompare x (S754_zero false).
Proof. destruct x; reflexivity. Qed.

Lemma finite_sf_dec (x : spec_float) : {finite_sf x} + {~ finite_sf x}.
Proof. destruct x; cbn; auto. Defined.

(** The comparison of valid finite numbers follows their values. *)
Lemma SFleb_of_sval (x y : spec_float) :
  valid_binary x = true -> valid_binary y = true ->
  finite_sf x -> finite_sf y ->
  sval 1074 x <= sval 1074 y -> SFleb x y = true.
Proof.
  intros Vx Vy Fx Fy H.
  destruct x as [sx| | |sx mx ex]; try contradiction;
    destruct y as [sy| | |sy my ey]; try contradiction; cbn [sval] in H.
  - reflexivity.
  - destruct (valid_finite _ _ _ Vy) as (_ & Ey & _).
    unfold SFleb. rewrite SFcompare_zero_l.
    pose proof (binary_normalize_mono 0 (signed sy my) 0 ey 1074) as M.
    rewrite (binary_normalize_valid _ _ _ Vy) in M. apply M; lia.
  - destruct (valid_finite _ _ _ Vx) as (_ & Ex & _).
    unfold SFleb. rewrite SFcompare_zero_r.
    pose proof (binary_normalize_mono (signed sx mx) 0 ex 0 1074) as M.
    rewrite (binary_normalize_valid _ _ _ Vx) in M. apply M; lia.
  - destruct (valid_finite _ _ _ Vx) as (_ & Ex & _).
    destruct (valid_finite _ _ _ Vy) as (_ & Ey & _).
    pose proof (binary_normalize_mono (signed sx mx) (signed sy my) ex ey 1074) as M.
    rewrite (binary_normalize_valid _ _ _ Vx), (binary_normalize_valid _ _ _ Vy) in M.
    apply M; lia.
Qed.

(** The order of the numbers that are not NaN is transitive. *)
Lemma SFleb_trans (x y z : spec_float) :
  valid_binary x = true -> valid_binary y = true -> valid_binary z = true ->
  SFleb x y = true -> SFleb y z = true -> SFleb x z = true.
Proof.
  intros Vx Vy Vz Hxy Hyz.
  destruct x as [sx|sx| |sx mx ex], y as [sy|sy| |sy my ey], z as [sz|sz| |sz mz ez];
    try discriminate Hxy; try discriminate Hyz;
    try solve
      [ apply SFleb_of_sval; try assumption; try exact I;
        match type of Hxy with
        | SFleb _ ?b = true =>
            apply Z.le_trans with (sval 1074 b);
            apply SFleb_sval; try assumption; try exact I; lia
        end
      | repeat match goal with s : bool |- _ => destruct s end;
        try discriminate Hxy; try discriminate Hyz; reflexivity ].
Qed.

Lemma fle_trans (a b c : float) : fle a b -> fle b c -> fle a c.
Proof.
  unfold fle. rewrite !leb_spec. apply SFleb_trans; apply Prim2SF_valid.
Qed.

(** A number below another is not above it. *)
Lemma flt_not_fle (a b : float) : flt a b -> ~ fle b a.
Proof.
  unfold flt, fle. rewrite ltb_spec, leb_spec. unfold SFltb, SFleb.
  rewrite (SFcompare_antisym (Prim2SF a) (Prim2SF b)).
  destruct (SFcompare (Prim2SF a) (Prim2SF b)) as [[]|]; cbn; congruence.
Qed.





(** Two numbers that compare equal are the same number or two zeros. *)
Lemma SFcompare_Eq (x y : spec_float) :
  SFcompare x y = Some Eq ->
  x = y \/ (exists sx sy, x = S754_zero sx /\ y = S754_zero sy).
Proof.
  destruct x as [sx|sx| |sx mx ex], y as [sy|sy| |sy my ey]; cbn; intros H;
    try discriminate H;
    try (destruct sx; discriminate H); try (destruct sy; discriminate H).
  - right. eauto.
  - left. destruct sx, sy; try discriminate H; reflexivity.
  - left. destruct sx, sy; try discriminate H;
      destruct (Z.compare_spec ex ey); try discriminate H; subst;
      fold (Pos.compare mx my) in H;
      destruct (Pos.compare_spec mx my); try discriminate H; subst; reflexivity.
Qed.

(** The bounds of the box do not depend on the order of the two numbers. *)
Lemma min_max_swap (a b c : float) :
  ordinary a -> ordinary b -> finite_nonzero c ->
  (Py.min a b - c = Py.min b a - c)%float /\ (Py.max a b + c = Py.max b a + c)%float.
Proof.
  intros Ha Hb Fc. unfold Py.min, Py.max.
  assert (Z : forall x y, Prim2SF x = Prim2SF y
                          \/ (exists sx sy, Prim2SF x = S754_zero sx /\ Prim2SF y = S754_zero sy) ->
              (x - c = y - c)%float /\ (x + c = y + c)%float).
  { intros x y [E|(sx & sy & Ex & Ey)].
    - apply Prim2SF_inj in E. now subst.
    - unfold finite_nonzero in Fc.
      split; apply Prim2SF_inj; rewrite ?sub_spec, ?add_spec, Ex, Ey;
        unfold SF64sub, SF64add; destruct (Prim2SF c); try contradiction; reflexivity. }
  assert (A : SFcompare (Prim2SF b) (Prim2SF a)
              = option_map CompOpp (SFcompare (Prim2SF a) (Prim2SF b)))
    by apply SFcompare_antisym.
  rewrite !ltb_spec. unfold SFltb. rewrite A.
  destruct (SFcompare (Prim2SF a) (Prim2SF b)) as [[]|] eqn:E; cbn [option_map CompOpp].
  - destruct (SFcompare_Eq _ _ E) as [H|H].
    + destruct (Z a b (or_introl H)) as [Z1 Z2]. split; congruence.
    + destruct (Z a b (or_intror H)) as [Z1 Z2]. split; congruence.
  - split; reflexivity.
  - split; reflexivity.
  - exfalso. unfold ordinary in *.
    destruct (Prim2SF a) as [?|?| |? ? ?], (Prim2SF b) as [?|?| |? ? ?];
      cbn in E; try congruence;
      repeat match goal with s : bool |- _ => destruct s end; discriminate.
Qed.

(** Two numbers each not above the other give the same padded bounds. *)
Lemma fle_antisym_pad (x y c : float) :
  fle x y -> fle y x -> finite_nonzero c ->
  (x - c = y - c)%float /\ (x + c = y + c)%float.
Proof.
  unfold fle. rewrite !leb_spec. unfold SFleb. intros Hxy Hyx Fc.
  rewrite (SFcompare_antisym (Prim2SF x) (Prim2SF y)) in Hyx.
  assert (E : SFcompare (Prim2SF x) (Prim2SF y) = Some Eq).
  { destruct (SFcompare (Prim2SF x) (Prim2SF y)) as [[]|];
      cbn [option_map CompOpp] in Hyx; congruence. }
  destruct (SFcompare_Eq _ _ E) as [H|(sx & sy & Ex & Ey)].
  - apply Prim2SF_inj in H. now subst.
  - unfold finite_nonzero in Fc.
    split; apply Prim2SF_inj; rewrite ?sub_spec, ?add_spec, Ex, Ey;
      unfold SF64sub, SF64add; destruct (Prim2SF c); try contradiction; reflexivity.
Qed.

(** The bounds [min] and [max] compute are those of the smaller and of the
    larger of the two numbers. *)
Lemma smaller_min (lo a b c : float) :
  ordinary a -> ordinary b -> finite_nonzero c -> smaller lo a b ->
  (lo - c = Py.min a b - c)%float.
Proof.
  intros Ha Hb Fc (Hlo & La & Lb).
  destruct (min_max_bounds a b Ha Hb) as [(Ma & Mb & Hm) _].
  apply fle_antisym_pad; [| |exact Fc].
  - destruct Hm as [->| ->]; assumption.
  - destruct Hlo as [->| ->]; assumption.
Qed.

Lemma larger_max (hi a b c : float) :
  ordinary a -> ordinary b -> finite_nonzero c -> larger hi a b ->
  (hi + c = Py.max a b + c)%float.
Proof.
  intros Ha Hb Fc (Hhi & La & Lb).
  destruct (min_max_bounds a b Ha Hb) as [_ (Ma & Mb & Hm)].
  apply fle_antisym_pad; [| |exact Fc].
  - destruct Hhi as [->| ->]; assumption.
  - destruct Hm as [->| ->]; assumption.
Qed.
End Binary64Order.

(** ** The generator *)

Lemma nth_error_points (tp : nat -> float) (n : nat) : forall k j,
  j < n ->
  nth_error (points tp k n) j
  = Some (point (tp (3 * j + k)) (tp (S (3 * j + k))) (tp (S (S (3 * j + k))))).
Proof.
  induction n as [|n IH]; intros k j H; [lia|].
  cbn [points]. destruct j as [|j]; cbn [nth_error].
  - reflexivity.
  - rewrite IH by lia. f_equal. f_equal; f_equal; lia.
Qed.

(** X1. [load_data] never raises, whatever the generator returns: it
    gives 100 rows after reading 300 numbers, and its row [j] is built from
    the numbers [3 j], [3 j + 1] and [3 j + 2] read from the generator, in
    the order latitude, longitude, count. *)
Theorem load_data_never_raises (g : Random.state) :
  exists df,
    load_data g = (Some df, {| Random.tape := Random.tape g; Random.pos := 300 + Random.pos g |})
    /\ List.length df = 100
    /\ forall j, j < 100 ->
         nth_error df j
         = Some (point (Random.tape g (3 * j + Random.pos g))
                       (Random.tape g (S (3 * j + Random.pos g)))
                       (Random.tape g (S (S (3 * j + Random.pos g))))).
Proof.
  exists (points (Random.tape g) (Random.pos g) 100).
  split; [apply load_data_spec|]. split; [apply points_length|].
  intros j H. now apply nth_error_points.
Qed.

Lemma below_half (r : float) : (r <? 0.5)%float = true -> (r <? 0.5 + 0.3)%float = true.
Proof.
  intros H. destruct (r <? 0.5 + 0.3)%float eqn:E; [reflexivity|exfalso].
  assert (Or : ordinary r).
  { unfold ordinary. intros N. rewrite ltb_spec, N in H. discriminate H. }
  assert (O8 : ordinary (0.5 + 0.3)) by (unfold ordinary; vm_compute; discriminate).
  pose proof (not_flt_fle _ _ O8 Or E) as L.
  pose proof (fle_trans _ _ _ L (flt_fle _ _ H)) as C.
  vm_compute in C. discriminate C.
Qed.

(** X2. The count of a hotspot is chosen by two thresholds on one number
    [r] of the generator: 1 when [r < 0.5], 3 when [0.5 <= r < 0.5 + 0.3],
    and 6 otherwise; the total of the weights, 1.0, does not change [r]. *)
Theorem choices_by_thresholds (g : Random.state) :
  let r := Random.tape g (Random.pos g) in
  Random.choices [1; 3; 6]%Z [0.5; 0.3; 0.2]%float g
  = (Some [if (r <? 0.5)%float then 1%Z
           else if (r <? 0.5 + 0.3)%float then 3%Z else 6%Z],
     {| Random.tape := Random.tape g; Random.pos := S (Random.pos g) |}).
Proof.
  cbv zeta. rewrite choices_hotspot. unfold advance. cbn [Nat.add]. do 3 f_equal.
  unfold count_of. change (1.0 + 0.0)%float with 1%float. rewrite mul_one_r.
  unfold Random.bisect. cbn.
  destruct (Random.tape g (Random.pos g) <? 0.5)%float eqn:H.
  - apply below_half in H. change (0.5 + 0.3)%float with 0.8%float in H.
    now rewrite H.
  - change (0.5 + 0.3)%float with 0.8%float.
    destruct (Random.tape g (Random.pos g) <? 0.8)%float; reflexivity.
Qed.

(** ** Executions, case by case *)

Lemma wanted_pressed (i : inputs) : wanted i = true <-> pressed i.
Proof.
  unfold wanted, pressed, Py.truthy. rewrite !andb_true_iff, !negb_true_iff.
  rewrite !String.eqb_neq. tauto.
Qed.

Lemma answer_after_load (srv : server) (k : nat) (address : string) :
  answer (after_load srv) k address = answer srv k address.
Proof. unfold answer, after_load. now destruct (cache srv). Qed.

Lemma served_after_load (srv : server) : nominatim (after_load srv) = nominatim srv.
Proof. unfold after_load. now destruct (cache srv). Qed.

Lemma error_case (a0 a1 : Nominatim.response) :
  (failed a0 /\ (failed a1 \/ found a1)) \/ (found a0 /\ failed a1) ->
  a0 <> Nominatim.Failure /\ a1 <> Nominatim.Failure /\ ~ (found a0 /\ found a1).
Proof.
  unfold failed, found.
  intros [[[F|F] [[G|G]|(?&?&G)]]|[(?&?&F) [G|G]]]; subst;
    (split; [discriminate|]); (split; [discriminate|]);
    intros [(?&?&H0) (?&?&H1)]; discriminate.
Qed.

(** The five ways an execution can go. *)
Lemma execute_cases (i : inputs) (srv : server) :
  let a0 := answer srv 0 (start_location i) in
  let a1 := answer srv 1 (end_location i) in
  let circles := map circle_of (table_of srv) in
  let load := LoadData (filled (cache srv)) in
  let q0 := Geocode (query_of (start_location i)) in
  let q1 := Geocode (query_of (end_location i)) in
  (wanted i = false
   /\ execute i srv
      = (Some tt, (after_load srv,
                   {| m := circles; bounds := None; alerts := []; log := [load] |})))
  \/ (wanted i = true /\ a0 = Nominatim.Failure
      /\ execute i srv
         = (None, (asked (after_load srv) 1,
                   {| m := circles; bounds := None; alerts := []; log := [load; q0] |})))
  \/ (wanted i = true /\ a0 <> Nominatim.Failure /\ a1 = Nominatim.Failure
      /\ execute i srv
         = (None, (asked (after_load srv) 2,
                   {| m := circles; bounds := None; alerts := [];
                      log := [load; q0; q1] |})))
  \/ (wanted i = true
      /\ ((failed a0 /\ (failed a1 \/ found a1)) \/ (found a0 /\ failed a1))
      /\ execute i srv
         = (Some tt, (asked (after_load srv) 2,
                      {| m := circles; bounds := None; alerts := [Error not_found];
                         log := [load; q0; q1] |})))
  \/ (exists a b c d,
        wanted i = true /\ a0 = Nominatim.Location a b /\ a1 = Nominatim.Location c d
        /\ execute i srv
           = (Some tt,
              (asked (after_load srv) 2,
               {| m := circles ++ path_layers (a, b) (c, d);
                  bounds := Some [(a, b); (c, d)];
                  alerts :=
                    Success (route_message (start_location i) (end_location i))
                    :: match nearby_accidents (table_of srv) (a, b) (c, d) with
                       | [] => []
                       | _ :: _ =>
                           [Warning
                              (report
                                 (List.length (nearby_accidents (table_of srv) (a, b) (c, d)))
                                 (high_risk_count
                                    (nearby_accidents (table_of srv) (a, b) (c, d))))]
                       end;
                  log := [load; q0; q1] |}))).
Proof.
  cbv zeta. rewrite execute_unfold.
  destruct (wanted i) eqn:W.
  2:{ left. split; [reflexivity|]. unfold query. fold (wanted i). now rewrite W. }
  right. pose proof (proj1 (wanted_pressed i) W) as Hp.
  rewrite <- !(answer_after_load srv).
  set (p := {| m := map circle_of (table_of srv); bounds := None; alerts := [];
               log := [LoadData (filled (cache srv))] |}).
  destruct (answer (after_load srv) 0 (start_location i)) as [a b| | |] eqn:A0;
    destruct (answer (after_load srv) 1 (end_location i)) as [c d| | |] eqn:A1.
  all: try (left; split; [reflexivity|]; split; [reflexivity|];
            unfold query; fold (wanted i); rewrite W; unfold bind;
            rewrite get_coordinates_spec, A0; reflexivity).
  all: try (right; left; split; [reflexivity|]; split; [discriminate|];
            split; [reflexivity|];
            unfold query; fold (wanted i); rewrite W; unfold bind;
            rewrite get_coordinates_spec, A0, get_coordinates_spec, answer_asked, A1;
            reflexivity).
  1:{ right; right; right. exists a, b, c, d. repeat split.
      rewrite (query_found i _ _ p a b c d Hp A0 A1). reflexivity. }
  all: right; right; left; split; [reflexivity|].
  all: match goal with
       | |- ?H /\ _ =>
           assert (F : H);
           [ unfold failed, found; eauto 8
           | split; [exact F|];
             pose proof (query_failed i (table_of srv) (after_load srv) p Hp) as Q;
             cbv zeta in Q; rewrite A0, A1 in Q; rewrite (Q F); reflexivity ]
       end.
Qed.

(** X5. When the button is not pressed or an address is empty, the
    execution draws the circles of the hotspots and nothing else: it sends
    no request to the geocoder and shows no message. *)
Theorem nothing_asked_without_both_addresses (i : inputs) (srv : server) :
  run_btn i = false \/ start_location i = "" \/ end_location i = "" ->
  execute i srv
  = (Some tt,
     (after_load srv,
      {| m := map circle_of (table_of srv); bounds := None; alerts := [];
         log := [LoadData (filled (cache srv))] |}))
  /\ nominatim (server_of (execute i srv)) = nominatim srv.
Proof.
  intros H.
  assert (W : wanted i = false).
  { destruct (wanted i) eqn:W; [|reflexivity].
    apply wanted_pressed in W. destruct W as (A & B & C).
    destruct H as [H|[H|H]]; congruence. }
  destruct (execute_cases i srv) as [[_ E]|[(W'&_)|[(W'&_)|[(W'&_)|(?&?&?&?&W'&_)]]]];
    try congruence.
  rewrite E. split; [reflexivity|]. apply served_after_load.
Qed.

Lemma nothing_asked_without_both_addresses_witness :
  execute idle_inputs (boot central_service)
  = (Some tt,
     (after_load (boot central_service),
      {| m := map circle_of (table_of (boot central_service)); bounds := None;
         alerts := []; log := [LoadData false] |}))
  /\ nominatim (server_of (execute idle_inputs (boot central_service)))
     = nominatim (boot central_service).
Proof.
  apply (nothing_asked_without_both_addresses idle_inputs (boot central_service)).
  right; right. reflexivity.
Defined.

(** X6. An execution is stopped by an exception exactly when the form is
    submitted and a geocoding call raises an exception other than a
    time-out.  Then no message of the script is shown, the map holds the
    circles only, the table stays in the memo entry, and the address of
    arrival has been requested only if the call for the start returned. *)
Theorem uncaught_geocoder_exception (i : inputs) (srv : server) :
  let x := execute i srv in
  let a0 := answer srv 0 (start_location i) in
  let a1 := answer srv 1 (end_location i) in
  (fst x = None
   <-> wanted i = true /\ (a0 = Nominatim.Failure \/ a1 = Nominatim.Failure))
  /\ (fst x = None ->
      alerts (page_of x) = []
      /\ m (page_of x) = map circle_of (table_of srv)
      /\ bounds (page_of x) = None
      /\ cache (server_of x) = Some (table_of srv)
      /\ geocodes (log (page_of x))
         = if raised a0 then [query_of (start_location i)]
           else [query_of (start_location i); query_of (end_location i)]).
Proof.
  cbv zeta.
  destruct (execute_server i srv) as [_ Hc].
  destruct (execute_cases i srv)
    as [[W E]|[(W&A0&E)|[(W&A0&A1&E)|[(W&F&E)|(a&b&c&d&W&A0&A1&E)]]]];
    cbv zeta in *; rewrite E in *; unfold page_of, server_of in *; cbn [fst snd] in *.
  - split; [split; [discriminate | intros [? _]; congruence] | discriminate].
  - split; [split; auto|]. intros _. rewrite A0. cbn. auto.
  - split; [split; auto|]. intros _. cbn [alerts m bounds log].
    repeat split; auto.
    destruct (answer srv 0 (start_location i)); try reflexivity. congruence.
  - split; [|discriminate]. split; [discriminate|].
    destruct (error_case _ _ F) as (N0 & N1 & _). intros [_ [H|H]]; contradiction.
  - split; [|discriminate]. split; [discriminate|].
    intros [_ [H|H]]; congruence.
Qed.

Example exception_sample :
  fst (execute sample_inputs (boot failing_service)) = None
  /\ geocodes (log (page_of (execute sample_inputs (boot failing_service))))
     = [query_of "台中火車站"; query_of "逢甲大學"]
  /\ alerts (page_of (execute sample_inputs (boot failing_service))) = [].
Proof. vm_compute. repeat split. Qed.

(** X7. An execution sends at most two requests to the geocoder, each
    once and never again: none unless the form is submitted, then the start
    address and, if that call returns, the end address, both after the name
    of the city. *)
Theorem geocoder_requests (i : inputs) (srv : server) :
  let x := execute i srv in
  exists n,
    n <= 2
    /\ Nominatim.served (nominatim (server_of x)) = n + Nominatim.served (nominatim srv)
    /\ Nominatim.service (nominatim (server_of x)) = Nominatim.service (nominatim srv)
    /\ geocodes (log (page_of x))
       = firstn n [query_of (start_location i); query_of (end_location i)]
    /\ (n = 0 <-> wanted i = false)
    /\ (n = 1 <-> wanted i = true /\ answer srv 0 (start_location i) = Nominatim.Failure).
Proof.
  cbv zeta.
  destruct (execute_cases i srv)
    as [[W E]|[(W&A0&E)|[(W&A0&A1&E)|[(W&F&E)|(a&b&c&d&W&A0&A1&E)]]]];
    cbv zeta in *; rewrite E; unfold page_of, server_of; cbn [fst snd log];
    [exists 0 | exists 1 | exists 2 | exists 2 | exists 2];
    rewrite ?served_after_load; unfold asked; cbn [nominatim Nominatim.served Nominatim.service];
    rewrite ?served_after_load;
    (split; [lia|]); (split; [reflexivity|]); (split; [reflexivity|]);
    (split; [reflexivity|]).
  - split; [tauto|]. split; [discriminate|]. intros [? _]; congruence.
  - split; [split; [discriminate | congruence]|]. tauto.
  - split; [split; [discriminate | congruence]|].
    split; [discriminate|]. intros [_ H]. contradiction.
  - split; [split; [discriminate | congruence]|].
    split; [discriminate|]. destruct (error_case _ _ F) as (N0 & _). intros [_ H].
    contradiction.
  - split; [split; [discriminate | congruence]|].
    split; [discriminate|]. intros [_ H]. congruence.
Qed.

(** X4. In every execution the circles of the hotspots come first on the
    map, in the order of the table.  Either nothing else is on the map, no
    bounds are set and no success message is shown, or both addresses were
    geocoded and the two markers and the line follow the circles, the
    bounds are the two coordinates and the success message is shown. *)
Theorem path_drawn_all_or_nothing (i : inputs) (srv : server) :
  let p := page_of (execute i srv) in
  let circles := map circle_of (table_of srv) in
  (m p = circles /\ bounds p = None
   /\ (forall body, ~ In (Success body) (alerts p))
   /\ ~ (wanted i = true /\ found (answer srv 0 (start_location i))
         /\ found (answer srv 1 (end_location i))))
  \/ (exists s e,
        wanted i = true
        /\ answer srv 0 (start_location i) = Nominatim.Location (fst s) (snd s)
        /\ answer srv 1 (end_location i) = Nominatim.Location (fst e) (snd e)
        /\ m p = circles ++ path_layers s e
        /\ bounds p = Some [s; e]
        /\ In (Success (route_message (start_location i) (end_location i))) (alerts p)
        /\ fst (execute i srv) = Some tt).
Proof.
  cbv zeta.
  destruct (execute_cases i srv)
    as [[W E]|[(W&A0&E)|[(W&A0&A1&E)|[(W&F&E)|(a&b&c&d&W&A0&A1&E)]]]];
    cbv zeta in *; rewrite E; unfold page_of; cbn [fst snd m bounds alerts].
  - left. repeat split; auto. intros [? _]; congruence.
  - left. repeat split; auto. intros (_ & (?&?&H) & _). congruence.
  - left. repeat split; auto. intros (_ & _ & (?&?&H)). congruence.
  - left. repeat split; auto.
    + intros body [H|[]]. discriminate H.
    + destruct (error_case _ _ F) as (_ & _ & N). tauto.
  - right. exists (a, b), (c, d). repeat split; auto. now left.
Qed.

(** X13. An execution shows no message, or the error message alone, or the
    success message alone, or the success message followed by one report;
    a report counts at least one row, at most as many as the table holds,
    and no more high-risk rows than rows. *)
Theorem alerts_of_execution (i : inputs) (srv : server) :
  let al := alerts (page_of (execute i srv)) in
  let route := Success (route_message (start_location i) (end_location i)) in
  al = [] \/ al = [Error not_found] \/ al = [route]
  \/ exists total high,
       al = [route; Warning (report total high)]
       /\ 0 < total <= List.length (table_of srv) /\ high <= total.
Proof.
  cbv zeta.
  destruct (execute_cases i srv)
    as [[W E]|[(W&A0&E)|[(W&A0&A1&E)|[(W&F&E)|(a&b&c&d&W&A0&A1&E)]]]];
    cbv zeta in *; rewrite E; unfold page_of; cbn [fst snd alerts]; auto.
  destruct (nearby_accidents (table_of srv) (a, b) (c, d)) as [|r l] eqn:N; auto.
  do 3 right. exists (List.length (r :: l)), (high_risk_count (r :: l)).
  split; [reflexivity|]. split; [split; [cbn; lia|]|].
  - rewrite <- N. apply nearby_length.
  - apply filter_length_le.
Qed.

(** ** Executions in sequence *)

Lemma last_cons {A : Type} (l : list A) : forall a d, last (a :: l) d = last l a.
Proof.
  induction l as [|b l IH]; intros a d; [reflexivity|].
  change (last (a :: b :: l) d) with (last (b :: l) d). now rewrite !IH.
Qed.

Lemma states_last (later : list inputs) : forall (s : server) (df : table),
  cache s = Some df ->
  rng (last (states later s) s) = rng s /\ cache (last (states later s) s) = Some df.
Proof.
  induction later as [|j later IH]; intros s df Hs; [now split|].
  cbn [states]. fold (server_of (execute j s)). rewrite last_cons.
  destruct (execute_server j s) as [Hr Hc].
  assert (T : table_of s = df) by (unfold table_of; now rewrite Hs).
  assert (A : after_load s = s) by (unfold after_load; now rewrite Hs).
  rewrite T in Hc. rewrite A in Hr.
  destruct (IH _ _ Hc) as [IHr IHc]. rewrite IHr, IHc, Hr. now split.
Qed.

(** X14. Over any sequence of executions the generator is read once: it
    has advanced by 300 numbers when the memo entry was empty at first and
    not at all otherwise, the table of the first execution is still in the
    entry, and every execution after the first one reads its table from
    the entry. *)
Theorem generator_read_once (i : inputs) (later : list inputs) (srv : server) :
  let final := last (states (i :: later) srv) srv in
  rng final = (if filled (cache srv) then rng srv else advance (rng srv) 300)
  /\ cache final = Some (table_of srv)
  /\ Forall (fun s => forall j,
               filter is_load (log (page_of (execute j s))) = [LoadData true])
            (states (i :: later) srv).
Proof.
  cbv zeta.
  destruct (execute_server i srv) as [Hr Hc].
  assert (G : forall l s df, cache s = Some df ->
              Forall (fun s' => cache s' = Some df) (states l s)).
  { induction l as [|j l IHl]; intros s df Hs; cbn [states]; constructor.
    - fold (server_of (execute j s)). destruct (execute_server j s) as [_ Hc'].
      rewrite Hc'. unfold table_of. now rewrite Hs.
    - apply IHl. fold (server_of (execute j s)). destruct (execute_server j s) as [_ Hc'].
      rewrite Hc'. unfold table_of. now rewrite Hs. }
  destruct (states_last later (server_of (execute i srv)) (table_of srv) Hc) as [Lr Lc].
  assert (E : last (states (i :: later) srv) srv
              = last (states later (server_of (execute i srv))) (server_of (execute i srv))).
  { cbn [states]. fold (server_of (execute i srv)). apply last_cons. }
  rewrite E, Lr, Lc, Hr. split; [|split; [reflexivity|]].
  - unfold after_load, filled. now destruct (cache srv).
  - cbn [states]. fold (server_of (execute i srv)).
    assert (K : Forall (fun s' => cache s' = Some (table_of srv))
                  (server_of (execute i srv) :: states later (server_of (execute i srv))))
      by (constructor; [exact Hc | apply G; exact Hc]).
    eapply Forall_impl; [|exact K]. cbv beta. intros s Hs j.
    rewrite execute_loads_once, Hs. reflexivity.
Qed.

(** ** The report *)

Lemma numbers_from_digits (d : Decimal.uint) : forall acc rest,
  numbers_from (NilEmpty.string_of_uint d ++ rest)%string (Some acc)
  = numbers_from rest (Some (Nat.of_uint_acc d acc)).
Proof.
  induction d; intros acc rest; cbn [NilEmpty.string_of_uint append]; [reflexivity|..];
    cbn [numbers_from]; read_digit; rewrite IHd; cbn [Nat.of_uint_acc]; rewrite Nat.tail_mul_spec; do 3 f_equal; lia.
Qed.

Lemma numbers_from_number (n : nat) (rest : string) :
  numbers_from (Py.str_len n ++ rest)%string None = numbers_from rest (Some n).
Proof.
  unfold Py.str_len.
  assert (E : Nat.of_uint_acc (Nat.to_uint n) 0 = n) by apply Unsigned.of_to.
  destruct (Nat.to_uint n) as [|d|d|d|d|d|d|d|d|d|d] eqn:D.
  { rewrite <- E. cbn. pose proof (Unsigned.of_to n) as H. rewrite D in H. cbn in H.
    subst n. discriminate D. }
  all: cbn [NilEmpty.string_of_uint append numbers_from]; read_digit;
    rewrite numbers_from_digits; rewrite <- E; cbn [Nat.of_uint_acc];
    rewrite Nat.tail_mul_spec; reflexivity.
Qed.

Lemma numbers_from_text (p : string) : forall rest cur,
  no_digit p = true -> p <> "" ->
  numbers_from (p ++ rest)%string cur
  = match cur with Some n => [n] | None => [] end ++ numbers_from rest None.
Proof.
  induction p as [|c p IH]; intros rest cur H N; [congruence|].
  cbn [append numbers_from]. cbn [no_digit] in H.
  destruct (digit_of c); [discriminate|].
  destruct p as [|c' p'].
  - cbn [append]. now destruct cur.
  - destruct cur; rewrite (IH rest None H) by discriminate; reflexivity.
Qed.

Lemma append_empty (s : string) : (s ++ "")%string = s.
Proof. induction s; cbn; congruence. Qed.

(** X12. The report carries its two counts: the numbers written in its
    text are the number of rows near the path and the number of high-risk
    rows, in this order, and no other. *)
Theorem report_carries_counts (total high : nat) :
  numbers_in (report total high) = [total; high].
Proof.
  unfold numbers_in, report.
  rewrite numbers_from_text by (vm_compute; (reflexivity || discriminate)).
  rewrite numbers_from_number.
  rewrite numbers_from_text by (vm_compute; (reflexivity || discriminate)).
  rewrite numbers_from_number.
  rewrite <- (append_empty " 個高風險(紅色)熱點，請小心駕駛！").
  rewrite numbers_from_text by (vm_compute; (reflexivity || discriminate)).
  reflexivity.
Qed.

(** ** The filter *)


Lemma finite_ordinary (x : float) : finite x -> ordinary x.
Proof. unfold finite, ordinary. intros H E. rewrite E in H. exact H. Qed.


(** X8. When no coordinate is a NaN, the rows near the path do not depend
    on which of the two coordinates is the start: swapping them selects the
    same rows. *)
Theorem nearby_symmetric (df : table) (a b : coords) :
  ordinary (fst a) -> ordinary (snd a) -> ordinary (fst b) -> ordinary (snd b) ->
  nearby_accidents df a b = nearby_accidents df b a.
Proof.
  intros A1 A2 B1 B2. unfold nearby_accidents. cbv zeta.
  assert (C : finite_nonzero 0.01) by (vm_compute; exact I).
  destruct (min_max_swap (fst a) (fst b) 0.01 A1 B1 C) as [-> ->].
  destruct (min_max_swap (snd a) (snd b) 0.01 A2 B2 C) as [-> ->].
  reflexivity.
Qed.

Lemma nearby_symmetric_witness :
  nearby_accidents sample_table (24.13, 120.68)%float (24.18, 120.64)%float
  = nearby_accidents sample_table (24.18, 120.64)%float (24.13, 120.68)%float.
Proof.
  apply (nearby_symmetric sample_table (24.13, 120.68)%float (24.18, 120.64)%float);
    vm_compute; discriminate.
Defined.

(** With a NaN among the coordinates the order of the two arguments
    matters: [min] and [max] keep their first argument. *)
Example nearby_with_nan :
  nearby_accidents sample_table (nan, 120.68)%float (24.18, 120.64)%float = []
  /\ nearby_accidents sample_table (24.18, 120.64)%float (nan, 120.68)%float <> [].
Proof. split; vm_compute; [reflexivity | discriminate]. Qed.



Lemma generated_red (df : table) (r : row) :
  generated df -> In r df -> (count r >=? 5)%Z = (color r =? "red")%string.
Proof.
  intros Hg Hr. destruct (generated_inv _ Hg) as (tp & k & ->).
  destruct (in_points _ _ _ _ Hr) as [j ->].
  pose proof (point_labels (tp j) (tp (S j)) (tp (S (S j)))) as Hl.
  pose proof (point_count (tp j) (tp (S j)) (tp (S (S j)))) as Hc. cbv zeta in Hc.
  destruct Hc as [Hc | [Hc | Hc]]; rewrite Hc in Hl |- *;
    injection Hl as Hcol _; unfold point; cbn [color]; rewrite Hcol; reflexivity.
Qed.

(** X10. In a generated table the rows counted as high-risk in the report
    are the red rows near the path. *)
Theorem high_risk_rows_are_red (df : table) (a b : coords) :
  generated df ->
  high_risk_count (nearby_accidents df a b)
  = List.length (filter (fun r => (color r =? "red")%string) (nearby_accidents df a b)).
Proof.
  intros Hg. unfold high_risk_count. f_equal. apply filter_ext_in.
  intros r Hr. apply (generated_red df r Hg).
  unfold nearby_accidents in Hr. apply filter_In in Hr. tauto.
Qed.

Lemma high_risk_rows_are_red_witness :
  high_risk_count (nearby_accidents sample_table (24.13, 120.68)%float (24.18, 120.64)%float)
  = List.length (filter (fun r => (color r =? "red")%string)
                        (nearby_accidents sample_table (24.13, 120.68)%float
                                          (24.18, 120.64)%float)).
Proof. apply (high_risk_rows_are_red sample_table). exact sample_generated. Defined.

(** X3. The circle of a generated row is placed at the row's coordinates,
    has radius 8 when the count is at least 2 and radius 5 otherwise, is
    outlined and filled with the row's colour, and its popup shows the
    count, which is written 1, 3 or 6, and one of the three risk labels. *)
Theorem circle_radius_by_count (df : table) (r : row) :
  generated df -> In r df ->
  circle_of r
  = CircleMarker (lat r, lon r) (if (count r >=? 2)%Z then 8 else 5) (color r) (color r)
                 ("事故次數: " ++ Py.str_int (count r) ++ Py.newline ++ "等級: " ++ risk r)%string
  /\ (risk r = high_label \/ risk r = medium_label \/ risk r = low_label)
  /\ (Py.str_int (count r) = "1" \/ Py.str_int (count r) = "3" \/ Py.str_int (count r) = "6").
Proof.
  intros Hg Hr. destruct (generated_inv _ Hg) as (tp & k & ->).
  destruct (in_points _ _ _ _ Hr) as [j ->].
  pose proof (point_labels (tp j) (tp (S j)) (tp (S (S j)))) as Hl.
  pose proof (point_count (tp j) (tp (S j)) (tp (S (S j)))) as Hc. cbv zeta in Hc.
  unfold circle_of.
  destruct Hc as [Hc | [Hc | Hc]]; rewrite Hc in Hl |- *;
    injection Hl as Hcol Hrisk; unfold point; cbn [color risk lat lon count];
    unfold point in Hc; cbn [count] in Hc; rewrite Hcol, Hrisk, ?Hc; cbn; auto 6.
Qed.

Lemma circle_radius_by_count_witness :
  let r := {| lat := 24.1711375; lon := 120.65455; count := 6;
              color := "red"; risk := high_label |} in
  circle_of r
  = CircleMarker (lat r, lon r) (if (count r >=? 2)%Z then 8 else 5) (color r) (color r)
                 ("事故次數: " ++ Py.str_int (count r) ++ Py.newline ++ "等級: " ++ risk r)%string
  /\ (risk r = high_label \/ risk r = medium_label \/ risk r = low_label)
  /\ (Py.str_int (count r) = "1" \/ Py.str_int (count r) = "3" \/ Py.str_int (count r) = "6").
Proof.
  apply (circle_radius_by_count sample_table).
  - exact sample_generated.
  - right; left. reflexivity.
Defined.

(** X11. When the rectangle searched lies beyond the range of the
    generated coordinates on one side, no row is near the path. *)
Theorem nothing_nearby_outside_the_range
  (g g' : Random.state) (df : table) (a b : coords) :
  unit_interval (Random.tape g) ->
  load_data g = (Some df, g') ->
  let bx := padded_box a b in
  flt (base_lat + 0.05) (south bx) \/ flt (north bx) (base_lat - 0.05)
  \/ flt (base_lon + 0.05) (west bx) \/ flt (east bx) (base_lon - 0.05) ->
  nearby_accidents df a b = [].
Proof.
  intros Htp Hl bx H.
  assert (E : df = points (Random.tape g) (Random.pos g) 100)
    by (rewrite load_data_spec in Hl; congruence).
  destruct (nearby_accidents df a b) as [|r l] eqn:N; [reflexivity|exfalso].
  assert (Hr : In r (nearby_accidents df a b)) by (rewrite N; now left).
  unfold nearby_accidents in Hr. cbv zeta in Hr. apply filter_In in Hr.
  destruct Hr as [Hin Hb]. rewrite E in Hin. unfold between in Hb. rewrite !andb_true_iff in Hb.
  destruct Hb as [[S1 N1] [W1 E1]].
  destruct (points_in_range _ _ _ _ Htp Hin) as [[S2 N2] [W2 E2]].
  subst bx. unfold padded_box, margin in H. cbn [south north west east] in H.
  destruct H as [H|[H|[H|H]]]; apply flt_not_fle in H; apply H.
  - exact (fle_trans _ _ _ S1 N2).
  - exact (fle_trans _ _ _ S2 N1).
  - exact (fle_trans _ _ _ W1 E2).
  - exact (fle_trans _ _ _ W2 E1).
Qed.

Lemma nothing_nearby_outside_the_range_witness :
  nearby_accidents sample_table (24.27, 121.0)%float (24.28, 121.01)%float = [].
Proof.
  apply (nothing_nearby_outside_the_range sample_rng
           {| Random.tape := sample_tape; Random.pos := 300 |}).
  - exact sample_tape_unit_interval.
  - vm_compute. reflexivity.
  - left. vm_compute. reflexivity.
Defined.

(** ** The chart *)

Lemma value_counts_by (df : table) (label : string) (c : Z) :
  (forall r, In r df -> (risk r = label <-> count r = c)) ->
  risk_counts df label = List.length (filter (fun r => (count r =? c)%Z) df).
Proof.
  unfold risk_counts, value_counts. induction df as [|r df IH]; intros H; [reflexivity|].
  cbn [map count_occ filter].
  assert (H' : forall r0, In r0 df -> (risk r0 = label <-> count r0 = c))
    by (intros r0 Hr0; apply H; now right).
  specialize (H r (or_introl eq_refl)).
  destruct (string_dec (risk r) label) as [E|E], (Z.eqb_spec (count r) c) as [F|F];
    cbn [List.length]; rewrite (IH H'); try reflexivity; tauto.
Qed.

Lemma point_risk_count (r1 r2 r3 : float) :
  let r := point r1 r2 r3 in
  (risk r = high_label <-> count r = 6%Z)
  /\ (risk r = medium_label <-> count r = 3%Z)
  /\ (risk r = low_label <-> count r = 1%Z)
  /\ (count r = 1 \/ count r = 3 \/ count r = 6)%Z.
Proof.
  cbv zeta.
  pose proof (point_labels r1 r2 r3) as Hl.
  pose proof (point_count r1 r2 r3) as Hc. cbv zeta in Hc.
  destruct Hc as [Hc | [Hc | Hc]]; rewrite Hc in Hl |- *;
    injection Hl as _ Hrisk; unfold point; cbn [risk]; rewrite Hrisk;
    repeat split; auto; try discriminate; try lia.
Qed.

Lemma count_partition (df : table) :
  (forall r, In r df -> (count r = 1 \/ count r = 3 \/ count r = 6)%Z) ->
  List.length (filter (fun r => (count r =? 6)%Z) df)
  + List.length (filter (fun r => (count r =? 3)%Z) df)
  + List.length (filter (fun r => (count r =? 1)%Z) df)
  = List.length df.
Proof.
  induction df as [|r df IH]; intros H; [reflexivity|].
  assert (H' : forall r0, In r0 df -> (count r0 = 1 \/ count r0 = 3 \/ count r0 = 6)%Z)
    by (intros r0 Hr0; apply H; now right).
  specialize (IH H'). cbn [filter].
  destruct (H r (or_introl eq_refl)) as [E|[E|E]]; rewrite E; cbn; lia.
Qed.

(** X15. For a generated table the bars of the chart count the rows with
    count 6 (high risk), 3 (medium) and 1 (low); the three bars sum to 100
    and no other label has a bar. *)
Theorem bars_count_the_rows_by_risk (df : table) :
  generated df ->
  risk_counts df high_label = List.length (filter (fun r => (count r =? 6)%Z) df)
  /\ risk_counts df medium_label = List.length (filter (fun r => (count r =? 3)%Z) df)
  /\ risk_counts df low_label = List.length (filter (fun r => (count r =? 1)%Z) df)
  /\ risk_counts df high_label + risk_counts df medium_label + risk_counts df low_label = 100
  /\ (forall label, label <> high_label -> label <> medium_label -> label <> low_label ->
        risk_counts df label = 0).
Proof.
  intros Hg. destruct (generated_inv _ Hg) as (tp & k & ->).
  set (df := points tp k 100).
  assert (P : forall r, In r df ->
                (risk r = high_label <-> count r = 6%Z)
                /\ (risk r = medium_label <-> count r = 3%Z)
                /\ (risk r = low_label <-> count r = 1%Z)
                /\ (count r = 1 \/ count r = 3 \/ count r = 6)%Z).
  { intros r Hr. destruct (in_points _ _ _ _ Hr) as [j ->]. apply point_risk_count. }
  assert (H6 := value_counts_by df high_label 6 (fun r Hr => proj1 (P r Hr))).
  assert (H3 := value_counts_by df medium_label 3 (fun r Hr => proj1 (proj2 (P r Hr)))).
  assert (H1 := value_counts_by df low_label 1 (fun r Hr => proj1 (proj2 (proj2 (P r Hr))))).
  split; [exact H6|]. split; [exact H3|]. split; [exact H1|]. split.
  - rewrite H6, H3, H1, count_partition.
    + apply points_length.
    + intros r Hr. apply (P r Hr).
  - intros label N6 N3 N1. unfold risk_counts, value_counts.
    apply count_occ_not_In. intros Hin. apply in_map_iff in Hin.
    destruct Hin as (r & E & Hr). destruct (P r Hr) as (A & B & C & [D|[D|D]]).
    + apply C in D. congruence.
    + apply B in D. congruence.
    + apply A in D. congruence.
Qed.

Lemma bars_count_the_rows_by_risk_witness :
  risk_counts sample_table high_label
  = List.length (filter (fun r => (count r =? 6)%Z) sample_table)
  /\ risk_counts sample_table medium_label
     = List.length (filter (fun r => (count r =? 3)%Z) sample_table)
  /\ risk_counts sample_table low_label
     = List.length (filter (fun r => (count r =? 1)%Z) sample_table)
  /\ risk_counts sample_table high_label + risk_counts sample_table medium_label
     + risk_counts sample_table low_label = 100
  /\ (forall label, label <> high_label -> label <> medium_label -> label <> low_label ->
        risk_counts sample_table label = 0).
Proof. apply (bars_count_the_rows_by_risk sample_table). exact sample_generated. Defined.

(** * The rectangle of the filter *)

(** C2. For coordinates a geocoder returns (no NaN), the two coordinates
    span a rectangle: its south and west sides are the smaller, its north
    and east sides the larger latitude and longitude of the two.  A row is
    retained by the proximity filter exactly when it is a row of the table
    lying in this rectangle with each side moved outwards by 0.01, ends
    included. *)
Theorem nearby_iff_inside (df : table) (start_coords end_coords : coords) (r : row) :
  ordinary (fst start_coords) -> ordinary (snd start_coords) ->
  ordinary (fst end_coords) -> ordinary (snd end_coords) ->
  (exists b, spanning b start_coords end_coords)
  /\ (forall b, spanning b start_coords end_coords ->
        (In r (nearby_accidents df start_coords end_coords)
         <-> In r df /\ inside (expand b margin) r)).
Proof.
  intros S1 S2 E1 E2.
  destruct (min_max_bounds _ _ S1 E1) as [(A1 & A2 & A3) (A4 & A5 & A6)].
  destruct (min_max_bounds _ _ S2 E2) as [(B1 & B2 & B3) (B4 & B5 & B6)].
  split.
  - exists {| south := Py.min (fst start_coords) (fst end_coords);
              north := Py.max (fst start_coords) (fst end_coords);
              west := Py.min (snd start_coords) (snd end_coords);
              east := Py.max (snd start_coords) (snd end_coords) |}.
    unfold spanning, smaller, larger. cbn [south north west east]. tauto.
  - intros b (Hs & Hn & Hw & He).
    assert (C : finite_nonzero margin) by (vm_compute; exact I).
    rewrite nearby_in_padded_box. unfold inside, padded_box, expand.
    cbn [south north west east].
    rewrite (smaller_min _ _ _ margin S1 E1 C Hs), (larger_max _ _ _ margin S1 E1 C Hn).
    rewrite (smaller_min _ _ _ margin S2 E2 C Hw), (larger_max _ _ _ margin S2 E2 C He).
    reflexivity.
Qed.

Lemma nearby_iff_inside_witness :
  let r := {| lat := 24.15; lon := 120.66; count := 3; color := "orange";
              risk := medium_label |} in
  (exists b, spanning b (24.13, 120.68)%float (24.18, 120.64)%float)
  /\ (forall b, spanning b (24.13, 120.68)%float (24.18, 120.64)%float ->
        (In r (nearby_accidents [r] (24.13, 120.68)%float (24.18, 120.64)%float)
         <-> In r [r] /\ inside (expand b margin) r)).
Proof.
  cbv zeta. apply nearby_iff_inside; vm_compute; discriminate.
Defined.

(** The rectangle of the sample path and its expansion. *)
Example spanning_sample :
  let b := {| south := 24.13; north := 24.18; west := 120.64; east := 120.68 |} in
  spanning b (24.13, 120.68)%float (24.18, 120.64)%float
  /\ expand b margin
     = {| south := 24.119999999999997; north := 24.190000000000001;
          west := 120.63; east := 120.69000000000001 |}.
Proof.
  cbv zeta. split; [|vm_compute; reflexivity].
  unfold spanning, smaller, larger. cbn [south north west east fst snd].
  repeat split; try (vm_compute; reflexivity); auto.
Qed.

(** * The table of an execution *)

(** An execution that finds the table [df] in the memo entry is the handler
    run on [df], on a page holding the circles of [df]. *)
Lemma execute_on_table (j : inputs) (s : server) (df : table) :
  cache s = Some df -> execute j s = query j df (s, drawn df true).
Proof.
  intros H. rewrite execute_unfold. unfold table_of, after_load, drawn. now rewrite H.
Qed.

Lemma firstn_prefix {A : Type} (l l' : list A) : firstn (List.length l) (l ++ l') = l.
Proof. induction l as [|a l IH]; cbn; [reflexivity | now rewrite IH]. Qed.

(** The first layers of the map are the circles of the table. *)
Lemma execute_first_layers (i : inputs) (srv : server) :
  firstn (List.length (table_of srv)) (m (page_of (execute i srv)))
  = map circle_of (table_of srv).
Proof.
  assert (H : exists rest,
             m (page_of (execute i srv)) = map circle_of (table_of srv) ++ rest).
  { destruct (execute_cases i srv)
      as [[W E]|[(W&A0&E)|[(W&A0&A1&E)|[(W&F&E)|(a&b&c&d&W&A0&A1&E)]]]];
      cbv zeta in *; rewrite E; unfold page_of; cbn [fst snd m];
      [exists [] | exists [] | exists [] | exists [] | eexists; reflexivity];
      now rewrite app_nil_r. }
  destruct H as [rest ->].
  rewrite <- (length_map circle_of (table_of srv)). apply firstn_prefix.
Qed.

(** The messages of an execution whose two addresses are geocoded. *)
Lemma execute_found (i : inputs) (srv : server) (a b c d : float) :
  pressed i ->
  answer srv 0 (start_location i) = Nominatim.Location a b ->
  answer srv 1 (end_location i) = Nominatim.Location c d ->
  alerts (page_of (execute i srv))
  = Success (route_message (start_location i) (end_location i))
    :: match nearby_accidents (table_of srv) (a, b) (c, d) with
       | [] => []
       | _ :: _ =>
           [Warning (report (List.length (nearby_accidents (table_of srv) (a, b) (c, d)))
                            (high_risk_count (nearby_accidents (table_of srv) (a, b) (c, d))))]
       end.
Proof.
  intros Hp H1 H2. rewrite execute_unfold.
  rewrite <- (answer_after_load srv) in H1, H2.
  rewrite (query_found i _ _ _ a b c d Hp H1 H2). reflexivity.
Qed.

(** The executions that follow one that found [df] find it too, and the
    generator where it was. *)
Lemma states_keep (later : list inputs) : forall (s : server) (df : table),
  cache s = Some df ->
  Forall (fun s' => cache s' = Some df /\ rng s' = rng s) (states later s).
Proof.
  induction later as [|j later IH]; intros s df Hs; cbn [states]; constructor;
    fold (server_of (execute j s)); destruct (execute_server j s) as [Hr Hc];
    assert (T : table_of s = df) by (unfold table_of; now rewrite Hs);
    assert (A : after_load s = s) by (unfold after_load; now rewrite Hs);
    rewrite T in Hc; rewrite A in Hr.
  - now split.
  - eapply Forall_impl; [|exact (IH _ _ Hc)]. cbv beta. intros s' [C R].
    split; [exact C | now rewrite R].
Qed.

(** C7. An execution is the handler run on the table its call of
    [load_data] returned, on a page holding the circles of this table, and
    it leaves this table in the memo entry; a filled entry and the
    generator are left as they were.  Every later execution finds this
    table in the entry and works on it: it draws the circles of its rows,
    filters and reports on its rows, and leaves it in the entry.  What an
    execution shows depends on the server only through this table and the
    answers of the geocoder. *)
Theorem table_shared_across_executions (i : inputs) (later : list inputs) (srv : server) :
  let df := table_of srv in
  let srv1 := server_of (execute i srv) in
  execute i srv = query i df (after_load srv, drawn df (filled (cache srv)))
  /\ cache srv1 = Some df
  /\ (forall df0, cache srv = Some df0 ->
        df = df0 /\ cache srv1 = cache srv /\ rng srv1 = rng srv)
  /\ Forall (fun s =>
               cache s = Some df /\ rng s = rng srv1 /\ table_of s = df
               /\ forall j,
                    execute j s = query j df (s, drawn df true)
                    /\ firstn (List.length df) (m (page_of (execute j s)))
                       = map circle_of df
                    /\ (forall a b c d,
                          pressed j ->
                          answer s 0 (start_location j) = Nominatim.Location a b ->
                          answer s 1 (end_location j) = Nominatim.Location c d ->
                          alerts (page_of (execute j s))
                          = Success (route_message (start_location j) (end_location j))
                            :: match nearby_accidents df (a, b) (c, d) with
                               | [] => []
                               | _ :: _ =>
                                   [Warning
                                      (report
                                         (List.length (nearby_accidents df (a, b) (c, d)))
                                         (high_risk_count
                                            (nearby_accidents df (a, b) (c, d))))]
                               end)
                    /\ cache (server_of (execute j s)) = Some df)
            (srv1 :: states later srv1)
  /\ (forall j s s',
        cache s = Some df -> cache s' = Some df ->
        nominatim s = nominatim s' ->
        fst (execute j s) = fst (execute j s')
        /\ page_of (execute j s) = page_of (execute j s')).
Proof.
  cbv zeta. destruct (execute_server i srv) as [Hr Hc].
  split; [apply execute_unfold|]. split; [exact Hc|]. split; [|split].
  - intros df0 E. rewrite Hc, Hr. unfold table_of, after_load. rewrite E. auto.
  - assert (K : Forall (fun s => cache s = Some (table_of srv)
                                 /\ rng s = rng (server_of (execute i srv)))
                  (server_of (execute i srv) :: states later (server_of (execute i srv))))
      by (constructor; [now split | apply states_keep; exact Hc]).
    eapply Forall_impl; [|exact K]. cbv beta. intros s [Cs Rs].
    assert (T : table_of s = table_of srv) by (unfold table_of at 1; now rewrite Cs).
    split; [exact Cs|]. split; [exact Rs|]. split; [exact T|].
    intros j. split; [now apply execute_on_table|]. split; [|split].
    + rewrite <- T. apply execute_first_layers.
    + intros a b c d Hp H1 H2. rewrite <- T. now apply execute_found.
    + destruct (execute_server j s) as [_ Hc']. now rewrite Hc', T.
  - intros j s s' Hs Hs' Hn.
    rewrite (execute_on_table j s _ Hs), (execute_on_table j s' _ Hs').
    now apply query_page.
Qed.

(** C6, as the script does it.  When the generator returns numbers of the
    unit interval, the data-generation step returns 100 rows whose latitude
    is between [base_lat - 0.05] and [base_lat + 0.05] and whose longitude
    is between [base_lon - 0.05] and [base_lon + 0.05], as binary64
    numbers.  An execution of the server process works on such a table: it
    is the handler run on it, and the first 100 layers of its map are the
    circles of its rows.  The table is created by the execution that finds
    the memo entry empty, and by no other: an execution that finds a table
    in the entry works on that table and leaves the generator where it
    was, and so does every execution after the first one. *)
Theorem hotspots_in_range_created_once
  (tp : nat -> float) (srv : server) (i j : inputs) :
  unit_interval tp ->
  reachable tp srv ->
  let df := table_of srv in
  let srv1 := server_of (execute i srv) in
  (forall k, exists df0,
      load_data {| Random.tape := tp; Random.pos := k |}
      = (Some df0, {| Random.tape := tp; Random.pos := 300 + k |})
      /\ List.length df0 = 100
      /\ forall r, In r df0 -> in_range r)
  /\ execute i srv = query i df (after_load srv, drawn df (filled (cache srv)))
  /\ firstn 100 (m (page_of (execute i srv))) = map circle_of df
  /\ List.length df = 100
  /\ (forall r, In r df -> in_range r)
  /\ filter is_load (log (page_of (execute i srv))) = [LoadData (filled (cache srv))]
  /\ (cache srv = None -> load_data (rng srv) = (Some df, rng srv1))
  /\ (forall df0, cache srv = Some df0 -> df = df0 /\ rng srv1 = rng srv)
  /\ cache srv1 = Some df
  /\ filter is_load (log (page_of (execute j srv1))) = [LoadData true]
  /\ rng (server_of (execute j srv1)) = rng srv1
  /\ execute j srv1 = query j df (srv1, drawn df true).
Proof.
  intros Htp Hs. cbv zeta. destruct (reachable_table _ _ Hs) as [k Hk].
  destruct (execute_server i srv) as [Hr Hc].
  assert (L : List.length (table_of srv) = 100) by (rewrite Hk; apply points_length).
  split; [intros k'; exact (load_data_in_range {| Random.tape := tp; Random.pos := k' |} Htp)|].
  split; [apply execute_unfold|].
  split; [rewrite <- L at 1; apply execute_first_layers|].
  split; [exact L|].
  split; [intros r Hin; rewrite Hk in Hin; exact (points_in_range _ _ _ _ Htp Hin)|].
  split; [apply execute_loads_once|].
  split; [intros E; rewrite Hr, load_data_spec; unfold after_load, table_of; rewrite E;
          reflexivity|].
  split; [intros df0 E; rewrite Hr; unfold after_load, table_of; rewrite E; auto|].
  split; [exact Hc|].
  split; [rewrite execute_loads_once, Hc; reflexivity|].
  split; [|now apply execute_on_table].
  destruct (execute_server j (server_of (execute i srv))) as [Hr' _].
  rewrite Hr'. unfold after_load. now rewrite Hc.
Qed.

Lemma hotspots_in_range_created_once_witness :
  let srv := boot central_service in
  let df := table_of srv in
  let srv1 := server_of (execute sample_inputs srv) in
  (forall k, exists df0,
      load_data {| Random.tape := sample_tape; Random.pos := k |}
      = (Some df0, {| Random.tape := sample_tape; Random.pos := 300 + k |})
      /\ List.length df0 = 100
      /\ forall r, In r df0 -> in_range r)
  /\ execute sample_inputs srv
     = query sample_inputs df (after_load srv, drawn df (filled (cache srv)))
  /\ firstn 100 (m (page_of (execute sample_inputs srv))) = map circle_of df
  /\ List.length df = 100
  /\ (forall r, In r df -> in_range r)
  /\ filter is_load (log (page_of (execute sample_inputs srv)))
     = [LoadData (filled (cache srv))]
  /\ (cache srv = None -> load_data (rng srv) = (Some df, rng srv1))
  /\ (forall df0, cache srv = Some df0 -> df = df0 /\ rng srv1 = rng srv)
  /\ cache srv1 = Some df
  /\ filter is_load (log (page_of (execute idle_inputs srv1))) = [LoadData true]
  /\ rng (server_of (execute idle_inputs srv1)) = rng srv1
  /\ execute idle_inputs srv1 = query idle_inputs df (srv1, drawn df true).
Proof.
  cbv zeta.
  apply (hotspots_in_range_created_once sample_tape (boot central_service)
           sample_inputs idle_inputs).
  - exact sample_tape_unit_interval.
  - exact (reach_start sample_tape 0 _).
Defined.

(** C6, as stated, fails: the second page load of a server process creates
    no table.  Its call of [load_data] is answered from the memo entry, the
    generator stays where the first page load left it, after 300 numbers,
    and the table in the entry is the one the first page load created. *)
Lemma second_page_load_creates_nothing :
  let srv1 := server_of (execute sample_inputs (boot central_service)) in
  reachable sample_tape srv1
  /\ filter is_load (log (page_of (execute sample_inputs (boot central_service))))
     = [LoadData false]
  /\ filter is_load (log (page_of (execute sample_inputs srv1))) = [LoadData true]
  /\ Random.pos (rng srv1) = 300
  /\ rng (server_of (execute sample_inputs srv1)) = rng srv1
  /\ cache (server_of (execute sample_inputs srv1)) = cache srv1.
Proof.
  cbv zeta. split; [apply reach_execute; exact (reach_start sample_tape 0 _)|].
  repeat split; vm_compute; reflexivity.
Qed.
